(** * infbox: the cache-warming file watcher

    A shallow embedding of [scripts/watchers/watch_codebase_enhanced.py]
    (class [CacheManager], class [CodebaseWatcher], [periodic_cache_flush])
    and of the rename handler of [scripts/watch_codebase.py], with the
    properties of the change-detection and cache-prepopulation pipeline.

    Conventions of the embedding:
    - a Python [str] is the list of its code points ([pystr]); [len] is
      [length]; a [bytes] object is a [list byte];
    - a Python [dict] used as a map is a [gmap]; the [deque] is a [list]
      whose head is its left end;
    - every method takes the object ([self]) and the [World] and returns
      the updated pair: the world records what leaves the process (HTTP
      requests, logger calls) and, in a ghost field, which methods of the
      cache manager were entered;
    - what lies outside the repository is a parameter, gathered in the
      class [Env]: the inference server ([http_post]), the hash
      ([xxh64_hexdigest]) and the module-level configuration read from
      the environment; the ignore-rule matcher is a field of the watcher,
      as in the source. *)

From Stdlib Require Import ZArith NArith Lia List Bool.
From Stdlib.Strings Require Import Byte.
From stdpp Require Import base option list strings gmap.
Import ListNotations.

#[local] Open Scope Z_scope.

(** ** Python strings *)

Abbreviation pystr := (list N).

(** A string literal of the source (ASCII) as a list of code points. *)
Definition lit (s : string) : pystr :=
  List.map Ascii.N_of_ascii (String.list_ascii_of_string s).

(** The line feed, written [\n] in the source. *)
Definition LF : N := 10%N.
Definition CR : N := 13%N.

(** Truthiness of a [str]: the empty string is false. *)
Definition str_truthy (s : pystr) : bool :=
  match s with [] => false | _ :: _ => true end.

(** ** Data model *)

(** The dict returned by [_get_file_info]: it always has the four keys, so
    [file_info.get('language', '')] is [language] and the dict is truthy. *)
Record FileInfo := mkFileInfo {
  path : pystr;
  content : pystr;
  hash : pystr;
  language : pystr
}.

(** The JSON body of a priming request. *)
Record Payload := mkPayload {
  model : pystr;
  messages : list (pystr * pystr);   (* role, content *)
  max_tokens : Z;
  temperature : Z
}.

(** What [requests.post] does: a response with a status code, or an
    exception (connection refused, timeout, ...). *)
Inductive PostOutcome :=
| Responded (status_code : Z)
| Raised.

Inductive LogLevel := DEBUG | INFO | WARNING | ERROR.

(** The logger calls of the watcher, by the values they format. *)
Inductive LogRecord :=
| LogCached (p : pystr) (nchars : nat) (total_tokens : Z)
| LogTooLarge (p : pystr) (total_tokens : Z)
| LogFailedToCache (p : pystr) (status_code : Z)
| LogErrorCaching (p : pystr)
| LogSkippingLarge (filepath : pystr)
| LogErrorProcessing (filepath : pystr)
| LogCreated (p : pystr)
| LogModified (p : pystr)
| LogDeleted (p : pystr)
| LogMoved (src dst : pystr)
| LogCacheUpdated (operation : pystr) (nfiles : nat)
| LogCacheUpdateFailed (status_code : Z)
| LogErrorUpdating.

Definition level (r : LogRecord) : LogLevel :=
  match r with
  | LogCached _ _ _ | LogCreated _ | LogModified _ | LogDeleted _
  | LogMoved _ _ | LogCacheUpdated _ _ => INFO
  | LogTooLarge _ _ => WARNING
  | LogFailedToCache _ _ | LogErrorCaching _ | LogErrorProcessing _
  | LogCacheUpdateFailed _ | LogErrorUpdating => ERROR
  | LogSkippingLarge _ => DEBUG
  end.

(** What leaves the process: a priming request, a logger call and, for
    the first watcher (watch_codebase.py), an update sent to LMCache. *)
Inductive Effect :=
| HttpPost (url : pystr) (json : Payload)
| Log (r : LogRecord)
| LMCacheUpdate (operation : pystr) (files : list pystr).

(** Ghost record of the cache-manager methods entered. *)
Inductive Call :=
| CallCacheFile (file_info : FileInfo)
| CallAddToQueue (file_info : FileInfo)
| CallProcessQueue.

Record World := mkWorld {
  effects : list Effect;   (* oldest first *)
  calls : list Call        (* ghost, oldest first *)
}.

Definition emit (e : Effect) (w : World) : World :=
  mkWorld (effects w ++ [e]) (calls w).

Definition enter (c : Call) (w : World) : World :=
  mkWorld (effects w) (calls w ++ [c]).

Definition is_post (e : Effect) : bool :=
  match e with HttpPost _ _ => true | _ => false end.

(** The priming requests sent so far. *)
Definition posts (w : World) : list Effect := List.filter is_post (effects w).

Definition is_flush (c : Call) : bool :=
  match c with CallProcessQueue => true | _ => false end.

(** How many times [process_queue] was entered. *)
Definition flushes (w : World) : nat := length (List.filter is_flush (calls w)).

(** The records handed to [cache_file] so far, in order. *)
Definition primed (w : World) : list FileInfo :=
  omap (fun c => match c with CallCacheFile r => Some r | _ => None end) (calls w).

(** The records handed to [add_to_queue] so far, in order. *)
Definition enqueued (w : World) : list FileInfo :=
  omap (fun c => match c with CallAddToQueue r => Some r | _ => None end) (calls w).

(** ** class CacheManager *)

Record CacheManager := mkCacheManager {
  vllm_endpoint : pystr;
  cache_queue : list FileInfo;            (* deque, left end first *)
  cached_files : gmap pystr pystr;        (* file_path -> content_hash *)
  model_id : option pystr;
  max_model_len : Z
}.

Definition set_cache_queue (q : list FileInfo) (self : CacheManager) : CacheManager :=
  mkCacheManager (vllm_endpoint self) q (cached_files self) (model_id self)
                 (max_model_len self).

Definition set_cached_files (m : gmap pystr pystr) (self : CacheManager) : CacheManager :=
  mkCacheManager (vllm_endpoint self) (cache_queue self) m (model_id self)
                 (max_model_len self).

(** [_estimate_tokens]: [len(text) // 4]. *)
Definition _estimate_tokens (text : pystr) : Z := Z.of_nat (length text) / 4.

(** The f-strings of [cache_file]. *)
Definition system_prompt (file_info : FileInfo) : pystr :=
  lit "You are analyzing the file: " ++ path file_info ++ [LF; LF].

Definition file_content (file_info : FileInfo) : pystr :=
  lit "```" ++ language file_info ++ [LF] ++ content file_info ++ [LF] ++ lit "```".

(** [total_tokens] of [cache_file]: the estimate plus the reserve of 100. *)
Definition total_tokens (file_info : FileInfo) : Z :=
  _estimate_tokens (system_prompt file_info ++ file_content file_info) + 100.

(** The right-hand side of the admission test, [self.max_model_len - 200]. *)
Definition token_budget (self : CacheManager) : Z := max_model_len self - 200.

(** The test shared by [cache_file] and [add_to_queue]:
    [path in cached_files and cached_files[path] == hash]. *)
Definition already_cached (self : CacheManager) (file_info : FileInfo) : bool :=
  bool_decide (cached_files self !! path file_info = Some (hash file_info)).

Definition priming_url (self : CacheManager) : pystr :=
  vllm_endpoint self ++ lit "/v1/chat/completions".

Definition priming_payload (m : pystr) (file_info : FileInfo) : Payload :=
  mkPayload m
    [ (lit "system", system_prompt file_info ++ file_content file_info);
      (lit "user", lit "Analyze this file and be ready to answer questions about it.") ]
    10 0.

(** The module-level configuration and the collaborators. *)
Class Env := {
  (** [CACHE_BATCH_SIZE = int(os.getenv(...))]: any integer. *)
  CACHE_BATCH_SIZE : Z;
  CACHE_MAX_FILE_SIZE : Z;
  EXTRA_IGNORE_DIRS : list pystr;
  (** [xxhash.xxh64().update(data).hexdigest()] *)
  xxh64_hexdigest : list byte -> pystr;
  (** The inference server: the outcome of a POST, which may depend on
      everything the process did before. *)
  http_post : list Effect -> pystr -> Payload -> PostOutcome;
  (** LMCache, for the first watcher. *)
  lmcache_post : list Effect -> pystr -> list pystr -> PostOutcome
}.

Section CacheManager.
Context `{Env}.

(** The [try] block of [cache_file], once the request is built. *)
Definition send_priming (m : pystr) (file_info : FileInfo)
    (self : CacheManager) (w : World) : CacheManager * World :=
  let url := priming_url self in
  let payload := priming_payload m file_info in
  let w1 := emit (HttpPost url payload) w in
  match http_post (effects w) url payload with
  | Responded status_code =>
      if status_code =? 200 then
        (set_cached_files (<[path file_info := hash file_info]> (cached_files self)) self,
         emit (Log (LogCached (path file_info) (length (content file_info))
                              (total_tokens file_info))) w1)
      else
        (self, emit (Log (LogFailedToCache (path file_info) status_code)) w1)
  | Raised =>
      (self, emit (Log (LogErrorCaching (path file_info))) w1)
  end.

Definition cache_file (file_info : FileInfo) (self : CacheManager) (w : World)
    : CacheManager * World :=
  let w := enter (CallCacheFile file_info) w in
  match model_id self with
  | None => (self, w)
  | Some m =>
      if negb (str_truthy m) then (self, w)
      else if already_cached self file_info then (self, w)
      else if total_tokens file_info >? token_budget self then
        (self, emit (Log (LogTooLarge (path file_info) (total_tokens file_info))) w)
      else send_priming m file_info self w
  end.

(** The [while] loop of [process_queue]; [remaining] is
    [CACHE_BATCH_SIZE - processed], so [processed < CACHE_BATCH_SIZE] is
    [remaining <> 0]. *)
Fixpoint process_loop (remaining : nat) (self : CacheManager) (w : World)
    : CacheManager * World :=
  match remaining with
  | O => (self, w)
  | S remaining' =>
      match cache_queue self with
      | [] => (self, w)
      | file_info :: rest =>
          let '(self', w') := cache_file file_info (set_cache_queue rest self) w in
          process_loop remaining' self' w'
      end
  end.

Definition process_queue (self : CacheManager) (w : World) : CacheManager * World :=
  let w := enter CallProcessQueue w in
  match cache_queue self with
  | [] => (self, w)
  | _ :: _ => process_loop (Z.to_nat CACHE_BATCH_SIZE) self w
  end.

Definition add_to_queue (file_info : FileInfo) (self : CacheManager) (w : World)
    : CacheManager * World :=
  let w := enter (CallAddToQueue file_info) w in
  if already_cached self file_info then (self, w)
  else
    let self := set_cache_queue (cache_queue self ++ [file_info]) self in
    if Z.of_nat (length (cache_queue self)) >=? CACHE_BATCH_SIZE
    then process_queue self w
    else (self, w).

End CacheManager.

(** ** The Python runtime used by the watcher *)

(** *** Text files: [open(filepath, 'r', encoding='utf-8', errors='ignore')] *)

(** [(b & 0xC0) == 0x80] *)
Definition is_continuation (b : N) : bool := ((0x80 <=? b) && (b <? 0xC0))%N.

(** CPython's UTF-8 decoder with the [ignore] error handler, on the values
    of the bytes. An invalid start byte is dropped alone; after an invalid
    continuation byte the bytes before it are dropped and decoding resumes
    at it; a sequence cut short by the end of the data is dropped. Overlong
    forms, surrogates and code points above U+10FFFF are invalid. *)
Fixpoint utf8_decode_ignore (s : list N) : pystr :=
  match s with
  | [] => []
  | ch :: s1 =>
      if (ch <? 0x80)%N then ch :: utf8_decode_ignore s1
      else if (ch <? 0xC2)%N then utf8_decode_ignore s1
      else if (ch <? 0xE0)%N then
        match s1 with
        | [] => []
        | ch2 :: s2 =>
            if is_continuation ch2
            then ((ch - 0xC0) * 64 + (ch2 - 0x80))%N :: utf8_decode_ignore s2
            else utf8_decode_ignore s1
        end
      else if (ch <? 0xF0)%N then
        match s1 with
        | [] => []
        | ch2 :: s2 =>
            if negb (is_continuation ch2)
               || (if (ch2 <? 0xA0)%N then (ch =? 0xE0)%N else (ch =? 0xED)%N)
            then utf8_decode_ignore s1
            else
              match s2 with
              | [] => []
              | ch3 :: s3 =>
                  if is_continuation ch3
                  then ((ch - 0xE0) * 4096 + (ch2 - 0x80) * 64 + (ch3 - 0x80))%N
                       :: utf8_decode_ignore s3
                  else utf8_decode_ignore s2
              end
        end
      else if (ch <? 0xF5)%N then
        match s1 with
        | [] => []
        | ch2 :: s2 =>
            if negb (is_continuation ch2)
               || (if (ch2 <? 0x90)%N then (ch =? 0xF0)%N else (ch =? 0xF4)%N)
            then utf8_decode_ignore s1
            else
              match s2 with
              | [] => []
              | ch3 :: s3 =>
                  if negb (is_continuation ch3) then utf8_decode_ignore s2
                  else
                    match s3 with
                    | [] => []
                    | ch4 :: s4 =>
                        if is_continuation ch4
                        then ((ch - 0xF0) * 262144 + (ch2 - 0x80) * 4096
                              + (ch3 - 0x80) * 64 + (ch4 - 0x80))%N
                             :: utf8_decode_ignore s4
                        else utf8_decode_ignore s3
                    end
              end
        end
      else utf8_decode_ignore s1
  end.

(** Universal newlines ([newline=None]) on reading: [\r\n] and a lone [\r]
    become [\n]. *)
Fixpoint translate_newlines (s : pystr) : pystr :=
  match s with
  | [] => []
  | c :: s1 =>
      if (c =? CR)%N then
        match s1 with
        | c2 :: s2 => if (c2 =? LF)%N then LF :: translate_newlines s2
                      else LF :: translate_newlines s1
        | [] => [LF]
        end
      else c :: translate_newlines s1
  end.

(** [f.read()] of a file opened as above. *)
Definition read_text (data : list byte) : pystr :=
  translate_newlines (utf8_decode_ignore (List.map Byte.to_N data)).

Definition byte_of_N (n : N) : byte := default x00 (Byte.of_N n).

(** [str.encode('utf-8')] of one code point; [None] is UnicodeEncodeError
    (a surrogate). *)
Definition utf8_encode_char (c : N) : option (list byte) :=
  if (c <? 0x80)%N then Some [byte_of_N c]
  else if (c <? 0x800)%N then
    Some [byte_of_N (0xC0 + c / 64); byte_of_N (0x80 + c mod 64)]
  else if (c <? 0x10000)%N then
    if ((0xD800 <=? c) && (c <? 0xE000))%N then None
    else Some [byte_of_N (0xE0 + c / 4096); byte_of_N (0x80 + (c / 64) mod 64);
               byte_of_N (0x80 + c mod 64)]
  else if (c <? 0x110000)%N then
    Some [byte_of_N (0xF0 + c / 262144); byte_of_N (0x80 + (c / 4096) mod 64);
          byte_of_N (0x80 + (c / 64) mod 64); byte_of_N (0x80 + c mod 64)]
  else None.

Fixpoint utf8_encode (s : pystr) : option (list byte) :=
  match s with
  | [] => Some []
  | c :: s1 =>
      match utf8_encode_char c, utf8_encode s1 with
      | Some bs, Some rest => Some (bs ++ rest)
      | _, _ => None
      end
  end.

(** *** [str] operations *)

Fixpoint startswith (s prefix : pystr) : bool :=
  match prefix, s with
  | [], _ => true
  | a :: prefix', b :: s' => (a =? b)%N && startswith s' prefix'
  | _ :: _, [] => false
  end.

(** [pattern in s] *)
Fixpoint str_contains (s pattern : pystr) : bool :=
  startswith s pattern
  || match s with [] => false | _ :: s' => str_contains s' pattern end.

(** [str.lower()], on the ASCII letters (the tables it is compared with
    are ASCII). *)
Definition lower (s : pystr) : pystr :=
  List.map (fun c => if ((65 <=? c) && (c <=? 90))%N then (c + 32)%N else c) s.

Definition str_in (s : pystr) (l : list pystr) : bool :=
  existsb (fun x => bool_decide (x = s)) l.

(** [dict.get(key, default)] on a literal dict. *)
Fixpoint dict_get (d : list (pystr * pystr)) (key default : pystr) : pystr :=
  match d with
  | [] => default
  | (k, v) :: d' => if bool_decide (k = key) then v else dict_get d' key default
  end.

(** *** [pathlib]: a path is its string, already normalised *)

Definition SLASH : N := 47%N.
Definition DOT : N := 46%N.

(** [Path.name]: what follows the last slash. *)
Fixpoint path_name (p : pystr) : pystr :=
  match p with
  | [] => []
  | c :: p' =>
      if existsb (N.eqb SLASH) p' then path_name p'
      else if (c =? SLASH)%N then p' else p
  end.

(** [str.rfind] of one character, counting from [i]. *)
Fixpoint rfind_from (c : N) (s : pystr) (i : nat) : option nat :=
  match s with
  | [] => None
  | x :: s' =>
      match rfind_from c s' (S i) with
      | Some j => Some j
      | None => if (x =? c)%N then Some i else None
      end
  end.

(** [Path.suffix]: [name[i:]] when [0 < i < len(name) - 1] for the last
    dot [i] of the name, else the empty string. *)
Definition path_suffix (p : pystr) : pystr :=
  let name := path_name p in
  match rfind_from DOT name 0 with
  | Some i => if ((0 <? i) && (S i <? length name))%nat then drop i name else []
  | None => []
  end.

(** [Path.relative_to(base)]: [None] is ValueError. *)
Definition relative_to (p base : pystr) : option pystr :=
  if bool_decide (p = base) then Some [DOT]
  else if startswith p (base ++ [SLASH])
  then Some (drop (S (length base)) p)
  else None.

(** The regular files of the watched tree, by path. *)
Abbreviation FileSystem := (gmap pystr (list byte)).

(** ** class CodebaseWatcher (watch_codebase_enhanced.py) *)

Record Watcher := mkWatcher {
  watch_dir : pystr;
  cache_manager : CacheManager;
  file_hashes : gmap pystr pystr;
  (** set once by [_load_gitignore]: the parsed rules, or [lambda x: False] *)
  gitignore_matcher : pystr -> bool
}.

Definition set_file_hashes (m : gmap pystr pystr) (self : Watcher) : Watcher :=
  mkWatcher (watch_dir self) (cache_manager self) m (gitignore_matcher self).

Definition set_cache_manager (c : CacheManager) (self : Watcher) : Watcher :=
  mkWatcher (watch_dir self) c (file_hashes self) (gitignore_matcher self).

Inductive EventType := Created | Modified | Deleted | Moved.

(** A watchdog event; [dest_path] is meaningful for [Moved] only. *)
Record FileSystemEvent := mkEvent {
  event_type : EventType;
  is_directory : bool;
  src_path : pystr;
  dest_path : pystr
}.

Definition ignore_patterns : list pystr :=
  [ lit ".git"; lit "__pycache__"; lit ".pyc"; lit ".pyo"; lit ".swp";
    lit ".DS_Store"; lit "node_modules"; lit ".env"; lit ".venv";
    lit "models"; lit "cache"; lit "__pycache__" ].

Definition binary_extensions : list pystr :=
  [ lit ".pyc"; lit ".pyo"; lit ".so"; lit ".dylib"; lit ".dll"; lit ".exe";
    lit ".bin"; lit ".dat"; lit ".db"; lit ".sqlite"; lit ".jpg"; lit ".jpeg";
    lit ".png"; lit ".gif"; lit ".bmp"; lit ".ico"; lit ".svg"; lit ".mp3"; lit ".mp4";
    lit ".avi"; lit ".mov"; lit ".pdf"; lit ".zip"; lit ".tar"; lit ".gz"; lit ".rar";
    lit ".7z"; lit ".dmg"; lit ".pkg"; lit ".deb"; lit ".rpm"; lit ".iso"; lit ".jar";
    lit ".war"; lit ".ear"; lit ".whl"; lit ".egg"; lit ".gem"; lit ".nupkg" ].

Definition ext_to_lang : list (pystr * pystr) :=
  [ (lit ".py", lit "python"); (lit ".js", lit "javascript"); (lit ".ts", lit "typescript");
    (lit ".go", lit "go"); (lit ".rs", lit "rust"); (lit ".java", lit "java");
    (lit ".cpp", lit "cpp"); (lit ".rb", lit "ruby"); (lit ".php", lit "php");
    (lit ".swift", lit "swift"); (lit ".c", lit "c"); (lit ".h", lit "c");
    (lit ".hpp", lit "cpp"); (lit ".cs", lit "csharp"); (lit ".kt", lit "kotlin");
    (lit ".scala", lit "scala"); (lit ".r", lit "r"); (lit ".m", lit "objc");
    (lit ".sh", lit "bash"); (lit ".yml", lit "yaml"); (lit ".yaml", lit "yaml");
    (lit ".json", lit "json"); (lit ".xml", lit "xml"); (lit ".md", lit "markdown");
    (lit ".rst", lit "rst"); (lit ".txt", lit "text"); (lit ".toml", lit "toml");
    (lit ".ini", lit "ini"); (lit ".cfg", lit "ini"); (lit ".conf", lit "conf");
    (lit ".env", lit "env"); (lit ".dockerfile", lit "dockerfile");
    (lit ".makefile", lit "makefile"); (lit ".mk", lit "makefile") ].

(** The language tag of [_get_file_info]. *)
Definition detect_language (filepath : pystr) : pystr :=
  let language := dict_get ext_to_lang (lower (path_suffix filepath)) [] in
  if negb (str_truthy language)
     && str_in (lower (path_name filepath))
               [lit "dockerfile"; lit "makefile"; lit "caddyfile"]
  then lower (path_name filepath)
  else language.

Section CodebaseWatcher.
Context `{Env}.

Definition _should_ignore (self : Watcher) (p : pystr) : bool :=
  let path_str := p in
  existsb (fun ignore_dir => str_truthy ignore_dir && str_contains path_str ignore_dir)
          EXTRA_IGNORE_DIRS
  || existsb (fun pattern => str_contains path_str pattern) ignore_patterns
  || gitignore_matcher self path_str
  || str_in (lower (path_suffix p)) binary_extensions.

(** [_get_file_info]: the dict, or [None]; an exception inside the [try]
    (here [encode] or [relative_to]) is logged and gives [None]. *)
Definition _get_file_info (fs : FileSystem) (self : Watcher) (filepath : pystr)
    (w : World) : option FileInfo * World :=
  match fs !! filepath with
  | None => (None, w)                                   (* not filepath.is_file() *)
  | Some data =>
      if _should_ignore self filepath then (None, w)
      else if Z.of_nat (length data) >? CACHE_MAX_FILE_SIZE then
        (None, emit (Log (LogSkippingLarge filepath)) w)
      else
        let content := read_text data in
        match utf8_encode content with
        | None => (None, emit (Log (LogErrorProcessing filepath)) w)
        | Some encoded =>
            let file_hash := xxh64_hexdigest encoded in
            match relative_to filepath (watch_dir self) with
            | None => (None, emit (Log (LogErrorProcessing filepath)) w)
            | Some rel_path =>
                (Some (mkFileInfo rel_path content file_hash (detect_language filepath)), w)
            end
        end
  end.

(** One iteration of the loop of [_initial_scan]. *)
Definition scan_one (fs : FileSystem) (self : Watcher) (filepath : pystr) (w : World)
    : Watcher * World :=
  match _get_file_info fs self filepath w with
  | (Some file_info, w) =>
      let self := set_file_hashes (<[path file_info := hash file_info]> (file_hashes self)) self in
      let '(c, w) := cache_file file_info (cache_manager self) w in
      (set_cache_manager c self, w)
  | (None, w) => (self, w)
  end.

(** [_initial_scan], over the paths [watch_dir.rglob('*')] yields. *)
Fixpoint _initial_scan (fs : FileSystem) (rglob : list pystr) (self : Watcher) (w : World)
    : Watcher * World :=
  match rglob with
  | [] => (self, w)
  | filepath :: rest =>
      let '(self, w) := scan_one fs self filepath w in
      _initial_scan fs rest self w
  end.

Definition on_created (fs : FileSystem) (event : FileSystemEvent) (self : Watcher)
    (w : World) : Watcher * World :=
  if is_directory event then (self, w)
  else
    match _get_file_info fs self (src_path event) w with
    | (Some file_info, w) =>
        let self := set_file_hashes (<[path file_info := hash file_info]> (file_hashes self)) self in
        let w := emit (Log (LogCreated (path file_info))) w in
        let '(c, w) := add_to_queue file_info (cache_manager self) w in
        (set_cache_manager c self, w)
    | (None, w) => (self, w)
    end.

Definition on_modified (fs : FileSystem) (event : FileSystemEvent) (self : Watcher)
    (w : World) : Watcher * World :=
  if is_directory event then (self, w)
  else
    match _get_file_info fs self (src_path event) w with
    | (Some file_info, w) =>
        let old_hash := file_hashes self !! path file_info in
        if bool_decide (old_hash <> Some (hash file_info)) then
          let self := set_file_hashes (<[path file_info := hash file_info]> (file_hashes self)) self in
          let w := emit (Log (LogModified (path file_info))) w in
          let '(c, w) := add_to_queue file_info (cache_manager self) w in
          (set_cache_manager c self, w)
        else (self, w)
    | (None, w) => (self, w)
    end.

(** [on_deleted]; [None] is the ValueError of [relative_to], raised before
    anything is changed. *)
Definition on_deleted (event : FileSystemEvent) (self : Watcher) (w : World)
    : option (Watcher * World) :=
  if is_directory event then Some (self, w)
  else
    match relative_to (src_path event) (watch_dir self) with
    | None => None
    | Some path_str =>
        match file_hashes self !! path_str with
        | Some _ =>
            let self := set_file_hashes (delete path_str (file_hashes self)) self in
            let c := cache_manager self in
            let c := match cached_files c !! path_str with
                     | Some _ => set_cached_files (delete path_str (cached_files c)) c
                     | None => c
                     end in
            Some (set_cache_manager c self, emit (Log (LogDeleted path_str)) w)
        | None => Some (self, w)
        end
    end.

(** The class defines no [on_moved]: the method is the one inherited from
    watchdog's [FileSystemEventHandler], which does nothing. *)
Definition on_moved (event : FileSystemEvent) (self : Watcher) (w : World)
    : Watcher * World := (self, w).

(** [FileSystemEventHandler.dispatch]: the handler of the event's type. *)
Definition dispatch (fs : FileSystem) (event : FileSystemEvent) (self : Watcher)
    (w : World) : option (Watcher * World) :=
  match event_type event with
  | Created => Some (on_created fs event self w)
  | Modified => Some (on_modified fs event self w)
  | Deleted => on_deleted event self w
  | Moved => Some (on_moved event self w)
  end.

End CodebaseWatcher.

(** ** class CodebaseWatcher (watch_codebase.py), the first watcher *)

Module Basic.

Record Watcher := mkWatcher {
  watch_dir : pystr;
  file_hashes : gmap pystr pystr;
  gitignore_matcher : pystr -> bool
}.

Definition set_file_hashes (m : gmap pystr pystr) (self : Watcher) : Watcher :=
  mkWatcher (watch_dir self) m (gitignore_matcher self).

Definition ignore_patterns : list pystr :=
  [ lit ".git"; lit "__pycache__"; lit ".pyc"; lit ".pyo"; lit ".swp";
    lit ".DS_Store"; lit "node_modules"; lit ".env"; lit ".venv" ].

Section CodebaseWatcher.
Context `{Env}.

Definition _should_ignore (self : Watcher) (p : pystr) : bool :=
  existsb (fun pattern => str_contains p pattern) ignore_patterns
  || gitignore_matcher self p.

(** [_hash_file]: the hash of the raw bytes, read in chunks of 8192 (the
    streaming hash of the chunks is the hash of their concatenation). *)
Definition _hash_file (fs : FileSystem) (self : Watcher) (filepath : pystr)
    : option pystr :=
  match fs !! filepath with
  | None => None
  | Some data =>
      if _should_ignore self filepath then None
      else if Z.of_nat (length data) >? 10 * 1024 * 1024 then None
      else Some (xxh64_hexdigest data)
  end.

Definition _update_cache (files : list pystr) (operation : pystr) (w : World) : World :=
  let w1 := emit (LMCacheUpdate operation files) w in
  match lmcache_post (effects w) operation files with
  | Responded status_code =>
      if status_code =? 200
      then emit (Log (LogCacheUpdated operation (length files))) w1
      else emit (Log (LogCacheUpdateFailed status_code)) w1
  | Raised => emit (Log LogErrorUpdating) w1
  end.

(** [on_moved]; [None] is the ValueError of [relative_to]. *)
Definition on_moved (fs : FileSystem) (event : FileSystemEvent) (self : Watcher)
    (w : World) : option (Watcher * World) :=
  if is_directory event then Some (self, w)
  else
    match relative_to (src_path event) (watch_dir self),
          relative_to (dest_path event) (watch_dir self) with
    | Some src_rel, Some dst_rel =>
        let self := match file_hashes self !! src_rel with
                    | Some _ => set_file_hashes (delete src_rel (file_hashes self)) self
                    | None => self
                    end in
        match _hash_file fs self (dest_path event) with
        | Some file_hash =>
            if str_truthy file_hash then
              let self := set_file_hashes (<[dst_rel := file_hash]> (file_hashes self)) self in
              let w := emit (Log (LogMoved src_rel dst_rel)) w in
              Some (self, _update_cache [src_rel; dst_rel] (lit "move") w)
            else Some (self, w)
        | None => Some (self, w)
        end
    | _, _ => None
    end.

End CodebaseWatcher.

End Basic.

(** ** Specification-side vocabulary *)

(** [admitted self file_info = Some m]: [cache_file] reaches the request,
    with model [m]: a model identifier is known, the fingerprint is not the
    cached one and the estimate is within the budget. *)
Definition admitted (self : CacheManager) (file_info : FileInfo) : option pystr :=
  match model_id self with
  | Some m =>
      if str_truthy m && negb (already_cached self file_info)
         && (total_tokens file_info <=? token_budget self)
      then Some m else None
  | None => None
  end.

(** The logger call of a failed request. *)
Definition failure_record (r : FileInfo) (o : PostOutcome) : LogRecord :=
  match o with
  | Responded code => LogFailedToCache (path r) code
  | Raised => LogErrorCaching (path r)
  end.

Section Sequences.
Context `{Env}.

(** [cache_file] on each record of a list, in order. *)
Definition prime_all (rs : list FileInfo) (self : CacheManager) (w : World)
    : CacheManager * World :=
  fold_left (fun st r => cache_file r st.1 st.2) rs (self, w).

(** [add_to_queue] on each record of a list, in order. *)
Definition add_all (rs : list FileInfo) (self : CacheManager) (w : World)
    : CacheManager * World :=
  fold_left (fun st r => add_to_queue r st.1 st.2) rs (self, w).

End Sequences.

#[global] Arguments lit : simpl never.
#[global] Arguments total_tokens : simpl never.
#[global] Arguments token_budget : simpl never.
#[global] Arguments priming_url : simpl never.
#[global] Arguments priming_payload : simpl never.
#[global] Arguments already_cached : simpl never.

(** ** The two activities of [main]

    The event path (watchdog's thread, in [add_to_queue] and from there in
    [process_queue]) and the timer path ([periodic_cache_flush], in
    [process_queue]) run on one [CacheManager]. The source takes no lock:
    a thread can be preempted between any two operations on the shared
    object. A step is one such operation: a test of the queue or of the
    cached map, one [append], one [popleft], the part of [cache_file] up to
    the POST, and the part after it. A thread carries the calls it has
    still to make: for the event path the [add_to_queue] of each event, in
    order; for the timer path one [process_queue] per period. *)

(** A call a thread has still to make. *)
Inductive Op :=
| OpAdd (file_info : FileInfo)      (* add_to_queue(file_info), from a handler *)
| OpFlush.                          (* process_queue(), from the timer loop *)

(** Where a thread is. *)
Inductive Pc :=
| Idle                                            (* between two calls *)
| AddTest (file_info : FileInfo)                  (* add_to_queue: the dedup test *)
| AddAppend (file_info : FileInfo)                (* cache_queue.append *)
| AddLen                                          (* the batch-size test *)
| FlushEmpty                                      (* process_queue: [if not self.cache_queue] *)
| FlushLoop (processed : Z)                       (* the while condition *)
| FlushPop (processed : Z)                        (* cache_queue.popleft() *)
| FlushPrime (processed : Z) (file_info : FileInfo)   (* cache_file, up to the POST *)
| FlushAwait (processed : Z) (file_info : FileInfo) (m : pystr) (sent_after : list Effect)
                                                  (* inside requests.post *)
| Dead.                                           (* IndexError: pop from an empty deque *)

Record Thread := mkThread {
  pc : Pc;
  todo : list Op
}.

(** The shared object and the world, with two ghost lists: the entries
    removed from the queue and the entries appended to it, in order. *)
Record Shared := mkShared {
  mgr : CacheManager;
  world : World;
  taken : list FileInfo;
  appended : list FileInfo
}.

(** [periodic_cache_flush], for a number of periods: after each sleep the
    thread calls [process_queue]. *)
Definition periodic_cache_flush (periods : nat) : Thread :=
  mkThread Idle (replicate periods OpFlush).

(** The handlers' side, for the records the events of a run enqueue. *)
Definition event_path (records : list FileInfo) : Thread :=
  mkThread Idle (List.map OpAdd records).



Section Threads.
Context `{Env}.

(** One step of a thread; [None] when it has nothing left to do. *)
Definition thread_step (t : Thread) (s : Shared) : option (Thread * Shared) :=
  let self := mgr s in
  let w := world s in
  let goto p := mkThread p (todo t) in
  match pc t with
  | Idle =>
      match todo t with
      | [] => None
      | OpAdd file_info :: rest =>
          Some (mkThread (AddTest file_info) rest,
                mkShared self (enter (CallAddToQueue file_info) w) (taken s) (appended s))
      | OpFlush :: rest =>
          Some (mkThread FlushEmpty rest,
                mkShared self (enter CallProcessQueue w) (taken s) (appended s))
      end
  | AddTest file_info =>
      if already_cached self file_info then Some (goto Idle, s)
      else Some (goto (AddAppend file_info), s)
  | AddAppend file_info =>
      Some (goto AddLen,
            mkShared (set_cache_queue (cache_queue self ++ [file_info]) self) w
                     (taken s) (appended s ++ [file_info]))
  | AddLen =>
      if Z.of_nat (length (cache_queue self)) >=? CACHE_BATCH_SIZE
      then Some (goto FlushEmpty,
                 mkShared self (enter CallProcessQueue w) (taken s) (appended s))
      else Some (goto Idle, s)
  | FlushEmpty =>
      match cache_queue self with
      | [] => Some (goto Idle, s)
      | _ :: _ => Some (goto (FlushLoop 0), s)
      end
  | FlushLoop processed =>
      match cache_queue self with
      | [] => Some (goto Idle, s)
      | _ :: _ =>
          if processed <? CACHE_BATCH_SIZE then Some (goto (FlushPop processed), s)
          else Some (goto Idle, s)
      end
  | FlushPop processed =>
      match cache_queue self with
      | [] => Some (goto Dead, s)
      | file_info :: rest =>
          Some (goto (FlushPrime processed file_info),
                mkShared (set_cache_queue rest self) w (taken s ++ [file_info]) (appended s))
      end
  | FlushPrime processed file_info =>
      let w := enter (CallCacheFile file_info) w in
      let skip w := Some (goto (FlushLoop (processed + 1)),
                          mkShared self w (taken s) (appended s)) in
      match model_id self with
      | None => skip w
      | Some m =>
          if negb (str_truthy m) then skip w
          else if already_cached self file_info then skip w
          else if total_tokens file_info >? token_budget self then
            skip (emit (Log (LogTooLarge (path file_info) (total_tokens file_info))) w)
          else
            Some (goto (FlushAwait processed file_info m (effects w)),
                  mkShared self
                    (emit (HttpPost (priming_url self) (priming_payload m file_info)) w)
                    (taken s) (appended s))
      end
  | FlushAwait processed file_info m sent_after =>
      let next := goto (FlushLoop (processed + 1)) in
      match http_post sent_after (priming_url self) (priming_payload m file_info) with
      | Responded status_code =>
          if status_code =? 200 then
            Some (next,
                  mkShared
                    (set_cached_files (<[path file_info := hash file_info]> (cached_files self))
                                      self)
                    (emit (Log (LogCached (path file_info) (length (content file_info))
                                          (total_tokens file_info))) w)
                    (taken s) (appended s))
          else
            Some (next,
                  mkShared self (emit (Log (LogFailedToCache (path file_info) status_code)) w)
                           (taken s) (appended s))
      | Raised =>
          Some (next,
                mkShared self (emit (Log (LogErrorCaching (path file_info))) w)
                         (taken s) (appended s))
      end
  | Dead => None
  end.

(** A step of a thread that runs alone. *)
Definition alone (a b : Thread * Shared) : Prop := thread_step a.1 a.2 = Some b.

(** The process: the event thread, the timer thread and what they share. *)
Record Sys := mkSys {
  event_thread : Thread;
  timer_thread : Thread;
  shared : Shared
}.

(** Any thread that can move may move next. *)
Inductive step : Sys -> Sys -> Prop :=
| step_event s t' sh' :
    thread_step (event_thread s) (shared s) = Some (t', sh') ->
    step s (mkSys t' (timer_thread s) sh')
| step_timer s t' sh' :
    thread_step (timer_thread s) (shared s) = Some (t', sh') ->
    step s (mkSys (event_thread s) t' sh').


(** A schedule says which thread moves at each step ([true]: the event
    thread); [run] follows it. *)
Fixpoint run (schedule : list bool) (s : Sys) : option Sys :=
  match schedule with
  | [] => Some s
  | true :: rest =>
      match thread_step (event_thread s) (shared s) with
      | Some (t', sh') => run rest (mkSys t' (timer_thread s) sh')
      | None => None
      end
  | false :: rest =>
      match thread_step (timer_thread s) (shared s) with
      | Some (t', sh') => run rest (mkSys (event_thread s) t' sh')
      | None => None
      end
  end.


End Threads.

(** ** The claim about one-byte changes, and sample data for the examples *)

(** Two byte strings that differ in exactly one byte. *)
Definition one_byte_change (d d' : list byte) : Prop :=
  exists pre b b' post, b <> b' /\ d = pre ++ b :: post /\ d' = pre ++ b' :: post.

(** An environment for the examples: the default sizes, a server that
    always gives the same outcome, and in place of xxh64 the bytes
    themselves, read as a string (a hash without collisions). *)
Definition sample_env (batch : Z) (outcome : PostOutcome) : Env :=
  {| CACHE_BATCH_SIZE := batch;
     CACHE_MAX_FILE_SIZE := 100000;
     EXTRA_IGNORE_DIRS := [];
     xxh64_hexdigest := fun data => List.map Byte.to_N data;
     http_post := fun _ _ _ => outcome;
     lmcache_post := fun _ _ _ => Responded 200 |}.

Definition env_ok : Env := sample_env 5 (Responded 200).
Definition env_batch2 : Env := sample_env 2 (Responded 200).
Definition env_error : Env := sample_env 5 (Responded 500).
Definition env_down : Env := sample_env 5 Raised.

Definition empty_world : World := mkWorld [] [].

(** A manager as [__init__] leaves it when the server names a model. *)
Definition sample_manager (max_len : Z) : CacheManager :=
  mkCacheManager (lit "http://vllm:8000") [] ∅ (Some (lit "qwen")) max_len.

(** A manager that got no model identifier (degraded start). *)
Definition sample_manager_no_model : CacheManager :=
  mkCacheManager (lit "http://vllm:8000") [] ∅ None 8192.

Definition record_a : FileInfo :=
  mkFileInfo (lit "a.py") (lit "x = 1") (lit "0a") (lit "python").

Definition record_b : FileInfo :=
  mkFileInfo (lit "b.py") (lit "y = 2") (lit "0b") (lit "python").

Definition path_a : pystr := lit "/workspace/a.py".
Definition path_b : pystr := lit "/workspace/b.py".

(** [a.py] holds the letter [a] and one byte that is not UTF-8. *)
Definition bytes_a : list byte := [x61; xff].

(** The same file with that byte changed. *)
Definition bytes_a_edited : list byte := [x61; xfe].

(** The same file rewritten to the letter [b]. *)
Definition bytes_a_rewritten : list byte := [x62].

(** The record [_get_file_info] builds for [a.py]: the undecodable byte is
    not in the content. *)
Definition info_a : FileInfo := mkFileInfo (lit "a.py") (lit "a") (lit "a") (lit "python").
Definition info_a_rewritten : FileInfo :=
  mkFileInfo (lit "a.py") (lit "b") (lit "b") (lit "python").

Definition sample_fs : FileSystem := {[ path_a := bytes_a ]}.
Definition sample_fs_edited : FileSystem := {[ path_a := bytes_a_edited ]}.
Definition sample_fs_rewritten : FileSystem := {[ path_a := bytes_a_rewritten ]}.
Definition sample_fs_moved : FileSystem := {[ path_b := bytes_a ]}.

Definition new_watcher : Watcher :=
  mkWatcher (lit "/workspace") (sample_manager 8192) ∅ (fun _ => false).

(** The watcher after the initial scan of [sample_fs]: [a.py] is indexed
    and, the server answering 200, cached. *)
Definition sample_watcher : Watcher * World :=
  @_initial_scan env_ok sample_fs [path_a] new_watcher empty_world.

Definition modify_a : FileSystemEvent := mkEvent Modified false path_a [].
Definition delete_a : FileSystemEvent := mkEvent Deleted false path_a [].
Definition create_a : FileSystemEvent := mkEvent Created false path_a [].
Definition move_a_to_b : FileSystemEvent := mkEvent Moved false path_a path_b.

(** Two threads on a manager with one queued entry and a batch size of
    two: the handler is about to enqueue a second entry, the timer is
    about to flush. *)
Definition sample_sys : Sys :=
  mkSys (event_path [record_b]) (periodic_cache_flush 1)
        (mkShared (set_cache_queue [record_a] sample_manager_no_model) empty_world [] []).

(** The handler runs up to its [popleft], then the timer up to its own. *)
Definition overlap_schedule : list bool :=
  [true; true; true; true; true; true; false; false; false].

(** From there the handler drains both entries and the timer pops. *)
Definition crash_schedule : list bool :=
  overlap_schedule ++ [true; true; true; true; false].

(** ** Start-up of the cache manager: [__init__] and [_get_model_info] *)

(** The logger calls of the start-up, by the values they format. *)
Inductive StartupLog :=
| LogUsingModel (m : pystr)
| LogMaxContext (n : Z)
| LogModelInfoFailed.

(** One entry of [models['data']]: [id] is [None] when the key is missing
    (a KeyError); [max_model_len], an integer, may be absent. *)
Record ModelData := mkModelData {
  md_id : option pystr;
  md_max_model_len : option Z
}.

(** What [requests.get(.../v1/models)] and [response.json()] give: a
    status code with the list under ['data'] ([None] when the body is not
    JSON or has no such key: an exception, if the body is looked at), or an
    exception of the request itself. *)
Inductive ModelsOutcome :=
| ModelsResponded (status_code : Z) (data : option (list ModelData))
| ModelsRaised.

Definition set_model_info (m : pystr) (n : Z) (self : CacheManager) : CacheManager :=
  mkCacheManager (vllm_endpoint self) (cache_queue self) (cached_files self) (Some m) n.

Definition _get_model_info (response : ModelsOutcome) (self : CacheManager)
    : CacheManager * list StartupLog :=
  match response with
  | ModelsRaised => (self, [LogModelInfoFailed])
  | ModelsResponded status_code body =>
      if status_code =? 200 then
        match body with
        | None => (self, [LogModelInfoFailed])
        | Some [] => (self, [])
        | Some (model_data :: _) =>
            match md_id model_data with
            | None => (self, [LogModelInfoFailed])
            | Some m =>
                let n := default 8192 (md_max_model_len model_data) in
                (set_model_info m n self, [LogUsingModel m; LogMaxContext n])
            end
        end
      else (self, [])
  end.

(** [CacheManager.__init__] *)
Definition CacheManager__init__ (endpoint : pystr) (response : ModelsOutcome)
    : CacheManager * list StartupLog :=
  _get_model_info response (mkCacheManager endpoint [] ∅ None 8192).

(** ** [_create_file_context] *)

(** The slice [s[:n]]: a negative [n] counts from the end. *)
Definition slice_to (n : Z) (s : pystr) : pystr :=
  if 0 <=? n then take (Z.to_nat n) s
  else take (Z.to_nat (Z.of_nat (length s) + n)) s.

Definition context_header : pystr :=
  lit "You are a code assistant. The following files are part of the codebase:"
  ++ [LF; LF].

Section FileContext.
Context `{Env}.

(** What one file adds to the context. *)
Definition file_context_entry (file_info : FileInfo) : pystr :=
  (lit "=== File: " ++ path file_info ++ lit " ===" ++ [LF])
  ++ (lit "```" ++ language file_info ++ [LF])
  ++ slice_to CACHE_MAX_FILE_SIZE (content file_info)
  ++ ([LF] ++ lit "```" ++ [LF; LF]).

Definition _create_file_context (files : list FileInfo) : pystr :=
  fold_left (fun context file_info => context ++ file_context_entry file_info)
            files context_header.

End FileContext.

(** ** The other handlers of the first watcher (watch_codebase.py) *)

Module BasicHandlers.
Section Handlers.
Context `{Env}.

(** [on_created]; [None] is the ValueError of [relative_to], raised once
    the file is hashed. *)
Definition on_created (fs : FileSystem) (event : FileSystemEvent) (self : Basic.Watcher)
    (w : World) : option (Basic.Watcher * World) :=
  if is_directory event then Some (self, w)
  else
    match Basic._hash_file fs self (src_path event) with
    | Some file_hash =>
        if str_truthy file_hash then
          match relative_to (src_path event) (Basic.watch_dir self) with
          | None => None
          | Some rel_path =>
              let self := Basic.set_file_hashes
                            (<[rel_path := file_hash]> (Basic.file_hashes self)) self in
              let w := emit (Log (LogCreated rel_path)) w in
              Some (self, Basic._update_cache [rel_path] (lit "create") w)
          end
        else Some (self, w)
    | None => Some (self, w)
    end.

Definition on_modified (fs : FileSystem) (event : FileSystemEvent) (self : Basic.Watcher)
    (w : World) : option (Basic.Watcher * World) :=
  if is_directory event then Some (self, w)
  else
    match Basic._hash_file fs self (src_path event) with
    | Some file_hash =>
        if str_truthy file_hash then
          match relative_to (src_path event) (Basic.watch_dir self) with
          | None => None
          | Some rel_path =>
              let old_hash := Basic.file_hashes self !! rel_path in
              if bool_decide (old_hash <> Some file_hash) then
                let self := Basic.set_file_hashes
                              (<[rel_path := file_hash]> (Basic.file_hashes self)) self in
                let w := emit (Log (LogModified rel_path)) w in
                Some (self, Basic._update_cache [rel_path] (lit "modify") w)
              else Some (self, w)
          end
        else Some (self, w)
    | None => Some (self, w)
    end.

Definition on_deleted (event : FileSystemEvent) (self : Basic.Watcher) (w : World)
    : option (Basic.Watcher * World) :=
  if is_directory event then Some (self, w)
  else
    match relative_to (src_path event) (Basic.watch_dir self) with
    | None => None
    | Some rel_path =>
        match Basic.file_hashes self !! rel_path with
        | Some _ =>
            let self := Basic.set_file_hashes (delete rel_path (Basic.file_hashes self)) self in
            let w := emit (Log (LogDeleted rel_path)) w in
            Some (self, Basic._update_cache [rel_path] (lit "delete") w)
        | None => Some (self, w)
        end
    end.

End Handlers.
End BasicHandlers.

(** ** Runs of the enhanced watcher *)

(** What happens to the process, one thing at a time: an event is
    delivered (with the file system as it is then), or the timer fires. *)
Inductive Action :=
| Deliver (fs : FileSystem) (event : FileSystemEvent)
| TimerFires.

Section Runs.
Context `{Env}.

(** One action; [None] when the handler raises. *)
Definition act (a : Action) (self : Watcher) (w : World) : option (Watcher * World) :=
  match a with
  | Deliver fs event => dispatch fs event self w
  | TimerFires =>
      let '(c, w) := process_queue (cache_manager self) w in
      Some (set_cache_manager c self, w)
  end.

(** A sequence of actions; [None] when a handler raised (the exception
    ends the thread that delivers the events). *)
Fixpoint run_actions (l : list Action) (self : Watcher) (w : World)
    : option (Watcher * World) :=
  match l with
  | [] => Some (self, w)
  | a :: rest =>
      match act a self w with
      | Some (self', w') => run_actions rest self' w'
      | None => None
      end
  end.

(** [process_queue] called [k] times in a row, as by [k] periods of the
    timer with no event in between. *)
Fixpoint flush_times (k : nat) (self : CacheManager) (w : World) : CacheManager * World :=
  match k with
  | O => (self, w)
  | S k' =>
      let '(self', w') := process_queue self w in
      flush_times k' self' w'
  end.

End Runs.

(** A priming request for [r] is in the trace. *)
Definition was_posted (self : CacheManager) (w : World) (r : FileInfo) : Prop :=
  exists m, In (HttpPost (priming_url self) (priming_payload m r)) (effects w).


(** A Unicode scalar value: a code point that is not a surrogate. *)
Definition is_scalar (c : N) : Prop :=
  (c < 0xD800 \/ 0xE000 <= c < 0x110000)%N.

(** The settings of a manager that no method assigns after [__init__]. *)
Definition same_settings (c c' : CacheManager) : Prop :=
  vllm_endpoint c' = vllm_endpoint c
  /\ model_id c' = model_id c
  /\ max_model_len c' = max_model_len c.

(** No usable model identifier: [not self.model_id]. *)
Definition no_model (c : CacheManager) : Prop :=
  model_id c = None \/ model_id c = Some [].

(** The number of bytes of a code point in UTF-8. *)
Definition utf8_len (c : N) : nat :=
  if (c <? 0x80)%N then 1 else if (c <? 0x800)%N then 2
  else if (c <? 0x10000)%N then 3 else 4.

(** The number of bytes of a string in UTF-8. *)
Definition utf8_size (s : pystr) : nat := sum_list (List.map utf8_len s).

Section ScanRecords.
Context `{Env}.

(** The records of the paths of a scan that [_get_file_info] accepts, in
    the order of the scan. *)
Definition eligible_records (fs : FileSystem) (self : Watcher) (rglob : list pystr)
    : list FileInfo :=
  omap (fun filepath => (_get_file_info fs self filepath (mkWorld [] [])).1) rglob.

(** The index after the records of a scan are entered in order. *)
Definition index_records (records : list FileInfo) (m : gmap pystr pystr)
    : gmap pystr pystr :=
  fold_left (fun m r => <[path r := hash r]> m) records m.

End ScanRecords.

(** The updates sent to LMCache so far, oldest first. *)
Definition is_update (e : Effect) : option (pystr * list pystr) :=
  match e with LMCacheUpdate operation files => Some (operation, files) | _ => None end.

Definition updates (w : World) : list (pystr * list pystr) := omap is_update (effects w).

(** [pattern] occurs in [s]. *)
Definition occurs_in (pattern s : pystr) : Prop :=
  exists pre post, s = pre ++ pattern ++ post.

(** ** More sample data *)

Definition env_batch0 : Env := sample_env 0 (Responded 200).

Definition new_watcher_no_model : Watcher :=
  mkWatcher (lit "/workspace") sample_manager_no_model ∅ (fun _ => false).

(** A watcher that indexes [a.py] and has its record queued. *)
Definition watcher_with_queued_a : Watcher :=
  mkWatcher (lit "/workspace") (set_cache_queue [info_a] (sample_manager 8192))
            {[ lit "a.py" := lit "a" ]} (fun _ => false).

(** A morning of the watcher: [a.py] is rewritten, the timer fires, the
    file is deleted, created again, and the timer fires again. *)
Definition sample_actions : list Action :=
  [ Deliver sample_fs_rewritten modify_a; TimerFires; Deliver ∅ delete_a;
    Deliver sample_fs create_a; TimerFires ].

Definition basic_watcher : Basic.Watcher :=
  Basic.mkWatcher (lit "/workspace") {[ lit "a.py" := lit "a" ]} (fun _ => false).

Definition new_basic_watcher : Basic.Watcher :=
  Basic.mkWatcher (lit "/workspace") ∅ (fun _ => false).

(** Both threads at [popleft], one entry queued. *)
Definition sys_both_at_pop : Sys :=
  mkSys (mkThread (FlushPop 0) []) (mkThread (FlushPop 0) [])
        (mkShared (set_cache_queue [record_a] sample_manager_no_model) empty_world [] []).

(** ** Requests sent since an earlier moment *)


Section Answered.
Context `{Env}.


End Answered.

(** * Properties *)

Section CacheManagerFacts.
Context `{Env}.

Lemma set_cache_queue_id self : set_cache_queue (cache_queue self) self = self.
Proof. by destruct self. Qed.

Lemma effects_enter c w : effects (enter c w) = effects w.
Proof. reflexivity. Qed.

Lemma posts_enter c w : posts (enter c w) = posts w.
Proof. reflexivity. Qed.

Lemma posts_emit_log r w : posts (emit (Log r) w) = posts w.
Proof.
  unfold posts, emit; simpl. rewrite List.filter_app; simpl. by rewrite app_nil_r.
Qed.

Lemma posts_emit_post url p w : posts (emit (HttpPost url p) w) = posts w ++ [HttpPost url p].
Proof. unfold posts, emit; simpl. by rewrite List.filter_app. Qed.

Lemma primed_enter_cache r w : primed (enter (CallCacheFile r) w) = primed w ++ [r].
Proof. unfold primed, enter; simpl. by rewrite omap_app. Qed.

Lemma primed_enter_other c w :
  (forall r, c <> CallCacheFile r) -> primed (enter c w) = primed w.
Proof.
  intros Hc. unfold primed, enter; simpl. rewrite omap_app; simpl.
  destruct c; try (by rewrite app_nil_r). by destruct (Hc file_info).
Qed.

Lemma primed_emit e w : primed (emit e w) = primed w.
Proof. reflexivity. Qed.

Lemma flushes_enter_flush w : flushes (enter CallProcessQueue w) = S (flushes w).
Proof.
  unfold flushes, enter; simpl. rewrite List.filter_app, length_app; simpl. lia.
Qed.

Lemma flushes_enter_other c w : c <> CallProcessQueue -> flushes (enter c w) = flushes w.
Proof.
  intros Hc. unfold flushes, enter; simpl. rewrite List.filter_app, length_app.
  destruct c; simpl; try lia. by destruct Hc.
Qed.

Lemma flushes_emit e w : flushes (emit e w) = flushes w.
Proof. reflexivity. Qed.

Lemma enqueued_enter_add r w : enqueued (enter (CallAddToQueue r) w) = enqueued w ++ [r].
Proof. unfold enqueued, enter; simpl. by rewrite omap_app. Qed.

Lemma enqueued_emit e w : enqueued (emit e w) = enqueued w.
Proof. reflexivity. Qed.

(** [send_priming] when the server answers 200. *)
Lemma send_priming_ok m r self w :
  http_post (effects w) (priming_url self) (priming_payload m r) = Responded 200 ->
  send_priming m r self w =
    (set_cached_files (<[path r := hash r]> (cached_files self)) self,
     emit (Log (LogCached (path r) (length (content r)) (total_tokens r)))
          (emit (HttpPost (priming_url self) (priming_payload m r)) w)).
Proof. intros Hok. unfold send_priming. by rewrite Hok. Qed.

(** [send_priming] on any other status, or on an exception. *)
Lemma send_priming_fail m r self w :
  http_post (effects w) (priming_url self) (priming_payload m r) <> Responded 200 ->
  send_priming m r self w =
    (self,
     emit (Log (failure_record r (http_post (effects w) (priming_url self) (priming_payload m r))))
          (emit (HttpPost (priming_url self) (priming_payload m r)) w)).
Proof.
  intros Hne. unfold send_priming.
  destruct (http_post _ _ _) as [code|]; [|done].
  destruct (Z.eqb_spec code 200) as [->|]; [by destruct Hne | done].
Qed.

Lemma admitted_Some self r m :
  admitted self r = Some m <->
  model_id self = Some m /\ str_truthy m = true /\ already_cached self r = false
  /\ total_tokens r <= token_budget self.
Proof.
  unfold admitted. destruct (model_id self) as [m'|].
  - destruct (str_truthy m') eqn:Ht, (already_cached self r) eqn:Hc,
      (Z.leb_spec (total_tokens r) (token_budget self)) as [Hle|Hgt];
      cbn [andb negb]; split.
    all: try (intros [= <-]; tauto).
    all: try (intros ([= <-] & ? & ? & ?); first [congruence | lia]).
    all: try (intros [=]).
  - split; [intros [=] | intros ([=] & _)].
Qed.

Lemma admitted_None self r :
  admitted self r = None ->
  model_id self = None
  \/ (exists m, model_id self = Some m /\ str_truthy m = false)
  \/ already_cached self r = true
  \/ (exists m, model_id self = Some m /\ str_truthy m = true
               /\ already_cached self r = false /\ token_budget self < total_tokens r).
Proof.
  unfold admitted. destruct (model_id self) as [m'|]; [|tauto].
  destruct (str_truthy m') eqn:Ht; [|intros _; right; left; eauto].
  destruct (already_cached self r) eqn:Hc; [tauto|].
  destruct (Z.leb_spec (total_tokens r) (token_budget self)) as [Hle|Hgt];
    cbn [andb negb].
  - intros [=].
  - intros _. right; right; right. exists m'. auto.
Qed.

(** [cache_file] when the request is reached. *)
Lemma cache_file_admitted r self w m :
  admitted self r = Some m ->
  cache_file r self w = send_priming m r self (enter (CallCacheFile r) w).
Proof.
  intros (Hm & Ht & Hc & Hle)%admitted_Some. unfold cache_file.
  rewrite Hm, Ht, Hc. cbn [negb].
  destruct (Z.gtb_spec (total_tokens r) (token_budget self)); [lia|reflexivity].
Qed.

(** [cache_file] when it is not: nothing is sent, nothing is changed but
    the log. *)
Lemma cache_file_not_admitted r self w :
  admitted self r = None ->
  exists w', cache_file r self w = (self, w')
    /\ posts w' = posts w /\ calls w' = calls w ++ [CallCacheFile r].
Proof.
  intros Ha. unfold cache_file.
  destruct (admitted_None _ _ Ha) as [Hm|[(m & Hm & Ht)|[Hc|(m & Hm & Ht & Hc & Hgt)]]].
  - rewrite Hm. eexists; repeat split.
  - rewrite Hm, Ht. eexists; repeat split.
  - destruct (model_id self) as [m|]; [|eexists; repeat split].
    destruct (str_truthy m); [|eexists; repeat split].
    rewrite Hc. eexists; repeat split.
  - rewrite Hm, Ht, Hc. cbn [negb].
    destruct (Z.gtb_spec (total_tokens r) (token_budget self)); [|lia].
    eexists; repeat split. rewrite posts_emit_log. reflexivity.
Qed.

(** [cache_file] reads and writes the cached map only: the queue and the
    other fields pass through. *)
Lemma cache_file_frame r self w :
  let '(self', w') := cache_file r self w in
  cache_queue self' = cache_queue self
  /\ vllm_endpoint self' = vllm_endpoint self
  /\ model_id self' = model_id self
  /\ max_model_len self' = max_model_len self
  /\ calls w' = calls w ++ [CallCacheFile r].
Proof.
  destruct (admitted self r) as [m|] eqn:Ha.
  - rewrite (cache_file_admitted _ _ _ _ Ha).
    unfold send_priming.
    destruct (http_post _ _ _) as [code|]; [destruct (code =? 200)|]; repeat split.
  - destruct (cache_file_not_admitted r self w Ha) as (w' & -> & _ & Hc).
    repeat split. exact Hc.
Qed.

Lemma cache_file_set_queue r q self w :
  cache_file r (set_cache_queue q self) w =
  (set_cache_queue q (cache_file r self w).1, (cache_file r self w).2).
Proof.
  unfold cache_file, send_priming, already_cached, token_budget, priming_url.
  cbn [model_id cached_files max_model_len vllm_endpoint set_cache_queue].
  destruct (model_id self) as [m|]; [|reflexivity].
  destruct (negb (str_truthy m)); [reflexivity|].
  destruct (bool_decide _); [reflexivity|].
  destruct (_ >? _); [reflexivity|].
  destruct (http_post _ _ _) as [code|]; [|reflexivity].
  destruct (code =? 200); reflexivity.
Qed.

Lemma prime_all_cons r rs self w :
  prime_all (r :: rs) self w =
  prime_all rs (cache_file r self w).1 (cache_file r self w).2.
Proof.
  unfold prime_all. cbn [fold_left fst snd].
  destruct (cache_file r self w); reflexivity.
Qed.

Lemma prime_all_frame rs : forall self w,
  cache_queue (prime_all rs self w).1 = cache_queue self
  /\ primed (prime_all rs self w).2 = primed w ++ rs
  /\ flushes (prime_all rs self w).2 = flushes w.
Proof.
  induction rs as [|r rs IH]; intros self w.
  - cbn [prime_all fold_left fst snd]. rewrite app_nil_r. auto.
  - rewrite prime_all_cons.
    pose proof (cache_file_frame r self w) as Hf.
    destruct (cache_file r self w) as [self' w']; cbn [fst snd].
    destruct Hf as (Hq & _ & _ & _ & Hc).
    destruct (IH self' w') as (IH1 & IH2 & IH3).
    rewrite IH1, IH2, IH3, Hq. unfold primed, flushes. rewrite Hc.
    rewrite omap_app, List.filter_app, length_app. cbn [omap List.filter is_flush length app].
    rewrite <- app_assoc, Nat.add_0_r. auto.
Qed.

(** The loop of [process_queue] primes the first [n] entries in order and
    leaves the others. *)
Lemma process_loop_spec n : forall self w,
  process_loop n self w =
  prime_all (take n (cache_queue self)) (set_cache_queue (drop n (cache_queue self)) self) w.
Proof.
  induction n as [|n IH]; intros self w; cbn [process_loop].
  - rewrite take_0, drop_0, set_cache_queue_id. reflexivity.
  - destruct (cache_queue self) as [|r rest] eqn:Hq.
    + rewrite take_nil, drop_nil.
      replace (set_cache_queue [] self) with self; [reflexivity|].
      rewrite <- Hq. symmetry. apply set_cache_queue_id.
    + rewrite firstn_cons, skipn_cons, prime_all_cons.
      rewrite !cache_file_set_queue.
      destruct (cache_file r self w) as [self' w'] eqn:Hcf; cbn [fst snd].
      rewrite IH. reflexivity.
Qed.

Lemma enqueued_enter_other c w :
  (forall r, c <> CallAddToQueue r) -> enqueued (enter c w) = enqueued w.
Proof.
  intros Hc. unfold enqueued, enter; cbn [calls]. rewrite omap_app.
  destruct c; cbn [omap]; try (by rewrite app_nil_r). by destruct (Hc file_info).
Qed.

Lemma prime_all_enqueued rs : forall self w,
  enqueued (prime_all rs self w).2 = enqueued w.
Proof.
  induction rs as [|r rs IH]; intros self w; [reflexivity|].
  rewrite prime_all_cons, IH.
  pose proof (cache_file_frame r self w) as Hf.
  destruct (cache_file r self w) as [self' w']; cbn [snd].
  destruct Hf as (_ & _ & _ & _ & Hc). unfold enqueued. rewrite Hc, omap_app.
  cbn [omap]. apply app_nil_r.
Qed.

Lemma process_queue_enqueued self w :
  enqueued (process_queue self w).2 = enqueued w.
Proof.
  unfold process_queue.
  destruct (cache_queue self); cbn [snd];
    [|rewrite process_loop_spec, prime_all_enqueued];
    apply enqueued_enter_other; discriminate.
Qed.

(** [add_to_queue] is one call of itself, whatever it goes on to do. *)
Lemma add_to_queue_enqueued r self w :
  enqueued (add_to_queue r self w).2 = enqueued w ++ [r].
Proof.
  unfold add_to_queue. destruct (already_cached self r); [apply enqueued_enter_add|].
  destruct (_ >=? _); [|apply enqueued_enter_add].
  rewrite process_queue_enqueued. apply enqueued_enter_add.
Qed.


End CacheManagerFacts.

Section CacheManagerClaims.
Context `{Env}.

(** A record whose fingerprint is the cached one is dropped by
    [add_to_queue] before anything else happens. *)
Lemma add_to_queue_already_cached r self w :
  already_cached self r = true ->
  add_to_queue r self w = (self, enter (CallAddToQueue r) w).
Proof. intros Hc. unfold add_to_queue. rewrite Hc. reflexivity. Qed.

(** A successful priming of [r] leaves its fingerprint in the cached map. *)
Lemma cache_file_ok_cached r self w m :
  admitted self r = Some m ->
  http_post (effects w) (priming_url self) (priming_payload m r) = Responded 200 ->
  cached_files (cache_file r self w).1 !! path r = Some (hash r).
Proof.
  intros Ha Hok. rewrite (cache_file_admitted _ _ _ _ Ha), send_priming_ok by exact Hok.
  cbn [fst cached_files set_cached_files]. apply lookup_insert_eq.
Qed.

(** C1. Idempotent dedup: once [cache_file] has primed a record with
    success (the request was sent and answered 200), [add_to_queue] of a
    record with the same path and the same fingerprint returns at the dedup
    test: the manager (queue and cached map) is unchanged, nothing is sent
    or logged, [process_queue] is not entered and no record is handed to
    [cache_file]. *)
Theorem add_to_queue_idempotent_dedup (r r' : FileInfo) (self : CacheManager)
    (w : World) (m : pystr) :
  admitted self r = Some m ->
  http_post (effects w) (priming_url self) (priming_payload m r) = Responded 200 ->
  path r' = path r ->
  hash r' = hash r ->
  let '(self1, w1) := cache_file r self w in
  let '(self2, w2) := add_to_queue r' self1 w1 in
  self2 = self1
  /\ cache_queue self2 = cache_queue self
  /\ effects w2 = effects w1
  /\ posts w2 = posts w1
  /\ flushes w2 = flushes w1
  /\ primed w2 = primed w1.
Proof.
  intros Ha Hok Hp Hh.
  pose proof (cache_file_ok_cached r self w m Ha Hok) as Hc.
  pose proof (cache_file_frame r self w) as Hf.
  destruct (cache_file r self w) as [self1 w1]; cbn [fst] in Hc.
  rewrite add_to_queue_already_cached.
  - destruct Hf as (Hq & _). repeat split; try reflexivity.
    + exact Hq.
    + apply flushes_enter_other. discriminate.
    + apply primed_enter_other. discriminate.
  - unfold already_cached. rewrite Hp, Hh. apply bool_decide_eq_true_2. exact Hc.
Qed.

(** [process_queue] is [cache_file] over the head of the queue. *)
Lemma process_queue_prime_all self w :
  process_queue self w =
    prime_all (take (Z.to_nat CACHE_BATCH_SIZE) (cache_queue self))
      (set_cache_queue (drop (Z.to_nat CACHE_BATCH_SIZE) (cache_queue self)) self)
      (enter CallProcessQueue w).
Proof.
  unfold process_queue. destruct (cache_queue self) as [|r rest] eqn:Hq.
  - rewrite take_nil, drop_nil.
    replace (set_cache_queue [] self) with self; [reflexivity|].
    rewrite <- Hq. symmetry. apply set_cache_queue_id.
  - rewrite process_loop_spec, Hq. reflexivity.
Qed.

Lemma process_queue_frame self w :
  cache_queue (process_queue self w).1 = drop (Z.to_nat CACHE_BATCH_SIZE) (cache_queue self)
  /\ primed (process_queue self w).2
     = primed w ++ take (Z.to_nat CACHE_BATCH_SIZE) (cache_queue self)
  /\ flushes (process_queue self w).2 = S (flushes w).
Proof.
  rewrite process_queue_prime_all.
  match goal with
  | |- context [prime_all ?l ?s ?v] => destruct (prime_all_frame l s v) as (Hq & Hp & Hf)
  end.
  rewrite Hq, Hp, Hf, primed_enter_other, flushes_enter_flush by discriminate.
  repeat split.
Qed.

(** C3. Flush semantics: [process_queue] hands the first
    [CACHE_BATCH_SIZE] entries of the queue (all of them when there are
    fewer) to [cache_file], oldest first, and leaves the others queued in
    their order; on an empty queue it returns the manager as it was and
    sends and logs nothing. *)
Theorem process_queue_flush_semantics (self : CacheManager) (w : World) :
  let n := Z.to_nat CACHE_BATCH_SIZE in
  let q := cache_queue self in
  process_queue self w =
    prime_all (take n q) (set_cache_queue (drop n q) self) (enter CallProcessQueue w)
  /\ cache_queue (process_queue self w).1 = drop n q
  /\ primed (process_queue self w).2 = primed w ++ take n q
  /\ q = take n q ++ drop n q
  /\ Z.of_nat (length (take n q)) <= Z.max 0 CACHE_BATCH_SIZE
  /\ process_queue (set_cache_queue [] self) w
     = (set_cache_queue [] self, enter CallProcessQueue w).
Proof.
  intros n q. subst n q.
  destruct (process_queue_frame self w) as (Hq & Hp & _).
  split; [apply process_queue_prime_all|]. split; [exact Hq|]. split; [exact Hp|].
  split; [symmetry; apply take_drop|]. split; [rewrite length_take; lia|].
  unfold process_queue. reflexivity.
Qed.

(** Enqueuing non-duplicate records while the queue stays below the batch
    size appends them and does nothing else. *)
Lemma add_all_below rs : forall self w,
  Forall (fun r => already_cached self r = false) rs ->
  Z.of_nat (length (cache_queue self) + length rs) < CACHE_BATCH_SIZE ->
  add_all rs self w =
    (set_cache_queue (cache_queue self ++ rs) self,
     mkWorld (effects w) (calls w ++ List.map CallAddToQueue rs)).
Proof.
  induction rs as [|r rs IH]; intros self w Hnc Hlen.
  - unfold add_all. cbn [fold_left List.map]. rewrite !app_nil_r, set_cache_queue_id.
    by destruct w.
  - apply Forall_cons in Hnc as [Hr Hrs]. cbn [length] in Hlen.
    unfold add_all. cbn [fold_left fst snd]. unfold add_to_queue at 2. rewrite Hr.
    cbn [cache_queue set_cache_queue].
    destruct (Z.geb_spec (Z.of_nat (length (cache_queue self ++ [r]))) CACHE_BATCH_SIZE)
      as [Hge|Hlt].
    { rewrite length_app in Hge. cbn [length] in Hge. lia. }
    fold (add_all rs (set_cache_queue (cache_queue self ++ [r]) self)
                  (enter (CallAddToQueue r) w)).
    rewrite IH.
    + cbn [cache_queue set_cache_queue effects calls enter List.map].
      rewrite <- !app_assoc. reflexivity.
    + exact Hrs.
    + cbn [cache_queue set_cache_queue]. rewrite length_app. cbn [length]. lia.
Qed.

Lemma add_all_snoc rs r self w :
  add_all (rs ++ [r]) self w =
  add_to_queue r (add_all rs self w).1 (add_all rs self w).2.
Proof. unfold add_all. rewrite fold_left_app. reflexivity. Qed.

(** C2. Batch trigger: from an empty queue and with a batch size of at
    least one, enqueuing [CACHE_BATCH_SIZE - 1] records, none of which has
    its fingerprint cached, leaves them all queued and enters
    [process_queue] zero times (a later call, as the timer makes, primes
    them all); enqueuing [CACHE_BATCH_SIZE] such records enters
    [process_queue] exactly once, and that flush hands all of them to
    [cache_file] in order and leaves the queue empty. *)
Theorem add_to_queue_batch_trigger (rs : list FileInfo) (self : CacheManager) (w : World) :
  1 <= CACHE_BATCH_SIZE ->
  cache_queue self = [] ->
  Forall (fun r => already_cached self r = false) rs ->
  (Z.of_nat (length rs) = CACHE_BATCH_SIZE - 1 ->
     let '(self', w') := add_all rs self w in
     flushes w' = flushes w
     /\ self' = set_cache_queue rs self
     /\ effects w' = effects w
     /\ primed w' = primed w
     /\ cache_queue (process_queue self' w').1 = []
     /\ primed (process_queue self' w').2 = primed w ++ rs)
  /\ (Z.of_nat (length rs) = CACHE_BATCH_SIZE ->
     let '(self', w') := add_all rs self w in
     flushes w' = S (flushes w)
     /\ cache_queue self' = []
     /\ primed w' = primed w ++ rs).
Proof.
  intros Hpos Hempty Hnc.
  assert (Hflush_none : forall l v, flushes (mkWorld (effects v) (calls v ++ List.map CallAddToQueue l))
                               = flushes v
                             /\ primed (mkWorld (effects v) (calls v ++ List.map CallAddToQueue l))
                               = primed v).
  { intros l v. unfold flushes, primed. cbn [calls].
    rewrite List.filter_app, omap_app, length_app.
    induction l as [|x l [IH1 IH2]]; cbn [List.map List.filter omap is_flush length].
    - rewrite app_nil_r. split; [lia|reflexivity].
    - split; [exact IH1|exact IH2]. }
  split; intros Hlen.
  - rewrite add_all_below, Hempty by (rewrite ?Hempty; cbn [length]; first [exact Hnc | lia]).
    cbn [app]. destruct (Hflush_none rs w) as [Hf Hp].
    destruct (process_queue_frame (set_cache_queue rs self)
                (mkWorld (effects w) (calls w ++ List.map CallAddToQueue rs)))
      as (Hq' & Hp' & _).
    cbn [cache_queue set_cache_queue] in Hq', Hp'.
    rewrite Hq', Hp', Hp, Hf.
    rewrite take_ge, drop_ge by lia. repeat split.
  - destruct (rev_ind (fun l => l = [] \/ exists l0 x, l = l0 ++ [x]) (or_introl eq_refl)
                (fun x l _ => or_intror (ex_intro _ l (ex_intro _ x eq_refl))) rs)
      as [->|(rs0 & r & ->)]; [cbn [length] in Hlen; lia|].
    rewrite length_app in Hlen. cbn [length] in Hlen.
    apply Forall_app in Hnc as [Hnc0 Hr]. apply Forall_cons in Hr as [Hr _].
    rewrite add_all_snoc, add_all_below, Hempty
      by (rewrite ?Hempty; cbn [length]; first [exact Hnc0 | lia]).
    cbn [app fst snd]. unfold add_to_queue.
    replace (already_cached (set_cache_queue rs0 self) r) with (already_cached self r)
      by reflexivity.
    rewrite Hr. cbn [cache_queue set_cache_queue].
    destruct (Z.geb_spec (Z.of_nat (length (rs0 ++ [r]))) CACHE_BATCH_SIZE) as [Hge|Hlt];
      [|rewrite length_app in Hlt; cbn [length] in Hlt; lia].
    destruct (process_queue_frame
                (set_cache_queue (rs0 ++ [r]) (set_cache_queue rs0 self))
                (enter (CallAddToQueue r)
                   (mkWorld (effects w) (calls w ++ List.map CallAddToQueue rs0))))
      as (Hq' & Hp' & Hf').
    cbn [cache_queue set_cache_queue] in Hq', Hp'.
    destruct (process_queue _ _) as [self' w'] eqn:Hrun. cbn [fst snd] in Hq', Hp', Hf'.
    assert (Hn : (length (rs0 ++ [r]) <= Z.to_nat CACHE_BATCH_SIZE)%nat)
      by (rewrite length_app; cbn [length]; lia).
    rewrite take_ge in Hp' by exact Hn.
    rewrite drop_ge in Hq' by exact Hn.
    destruct (Hflush_none rs0 w) as [Hf Hp].
    repeat split.
    + rewrite Hf', flushes_enter_other by discriminate. rewrite Hf. reflexivity.
    + exact Hq'.
    + rewrite Hp', primed_enter_other by discriminate. rewrite Hp. reflexivity.
Qed.

(** C4. Token-budget admission: a record whose estimate (prompt, content
    and the reserve of 100) exceeds [max_model_len - 200] is never sent and
    never enters the cached map, in any state of the manager; when
    [cache_file] reaches the test (a model identifier is known and the
    fingerprint is not the cached one), such a record gets the warning and
    nothing else, a record exactly at the threshold is sent, and a record
    one unit over is rejected. *)
Theorem cache_file_token_budget (r : FileInfo) (self : CacheManager) (w : World)
    (m : pystr) :
  model_id self = Some m ->
  str_truthy m = true ->
  already_cached self r = false ->
  (forall self0 w0, token_budget self0 < total_tokens r ->
     (cache_file r self0 w0).1 = self0
     /\ posts (cache_file r self0 w0).2 = posts w0)
  /\ (token_budget self < total_tokens r ->
      cache_file r self w =
        (self, emit (Log (LogTooLarge (path r) (total_tokens r)))
                    (enter (CallCacheFile r) w))
      /\ level (LogTooLarge (path r) (total_tokens r)) = WARNING)
  /\ (total_tokens r = token_budget self ->
      posts (cache_file r self w).2
      = posts w ++ [HttpPost (priming_url self) (priming_payload m r)])
  /\ (total_tokens r = token_budget self + 1 ->
      (cache_file r self w).1 = self
      /\ posts (cache_file r self w).2 = posts w
      /\ effects (cache_file r self w).2
         = effects w ++ [Log (LogTooLarge (path r) (total_tokens r))]).
Proof.
  intros Hm Ht Hc.
  assert (Hrej : token_budget self < total_tokens r ->
      cache_file r self w =
        (self, emit (Log (LogTooLarge (path r) (total_tokens r)))
                    (enter (CallCacheFile r) w))).
  { intros Hgt. unfold cache_file. rewrite Hm, Ht, Hc. cbn [negb].
    destruct (Z.gtb_spec (total_tokens r) (token_budget self)); [reflexivity|lia]. }
  split; [|split; [|split]].
  - intros self0 w0 Hgt.
    assert (Ha : admitted self0 r = None).
    { destruct (admitted self0 r) as [m0|] eqn:Ha; [|reflexivity].
      apply admitted_Some in Ha as (_ & _ & _ & Hle). lia. }
    destruct (cache_file_not_admitted r self0 w0 Ha) as (w' & -> & Hp & _).
    split; [reflexivity|exact Hp].
  - intros Hgt. split; [apply Hrej, Hgt|reflexivity].
  - intros Heq.
    assert (Ha : admitted self r = Some m) by (apply admitted_Some; repeat split; auto; lia).
    rewrite (cache_file_admitted _ _ _ _ Ha).
    unfold send_priming.
    destruct (http_post _ _ _) as [code|]; [destruct (code =? 200)|]; cbn [snd];
      rewrite posts_emit_log, posts_emit_post; reflexivity.
  - intros Heq. rewrite Hrej by lia. cbn [fst snd]. repeat split.
    rewrite posts_emit_log. reflexivity.
Qed.

(** C5. Failure atomicity of priming: when the request is sent and the
    server answers anything but 200, or the POST raises, [cache_file]
    returns the manager as it was (the cached map too), logs an error, and
    the record is as eligible as before; the only way the manager changes
    is a request answered 200, and then the cached map gets the record's
    fingerprint at its path. *)
Theorem cache_file_failure_atomic (r : FileInfo) (self : CacheManager) (w : World) :
  (forall m, admitted self r = Some m ->
     let url := priming_url self in
     let payload := priming_payload m r in
     http_post (effects w) url payload <> Responded 200 ->
     cache_file r self w =
       (self, emit (Log (failure_record r (http_post (effects w) url payload)))
                   (emit (HttpPost url payload) (enter (CallCacheFile r) w)))
     /\ level (failure_record r (http_post (effects w) url payload)) = ERROR
     /\ cached_files (cache_file r self w).1 = cached_files self
     /\ admitted (cache_file r self w).1 r = Some m)
  /\ ((cache_file r self w).1 = self
      \/ exists m, admitted self r = Some m
           /\ http_post (effects w) (priming_url self) (priming_payload m r) = Responded 200
           /\ (cache_file r self w).1
              = set_cached_files (<[path r := hash r]> (cached_files self)) self).
Proof.
  split.
  - intros m Ha url payload Hne.
    rewrite (cache_file_admitted _ _ _ _ Ha), send_priming_fail by exact Hne.
    cbn [fst]. repeat split; [|exact Ha].
    subst url payload. destruct (http_post _ _ _); reflexivity.
  - destruct (admitted self r) as [m|] eqn:Ha.
    + rewrite (cache_file_admitted _ _ _ _ Ha).
      destruct (http_post (effects w) (priming_url self) (priming_payload m r))
        as [code|] eqn:Hout.
      * destruct (Z.eq_dec code 200) as [->|Hne].
        -- right. exists m. rewrite send_priming_ok by exact Hout. auto.
        -- left. rewrite send_priming_fail; [reflexivity|].
           cbn [effects enter]. rewrite Hout. congruence.
      * left. rewrite send_priming_fail; [reflexivity|].
        cbn [effects enter]. rewrite Hout. discriminate.
    + left. destruct (cache_file_not_admitted r self w Ha) as (w' & -> & _). reflexivity.
Qed.

End CacheManagerClaims.

Section WatcherClaims.
Context `{Env}.

(** What a successful [_get_file_info] says of the file. *)
Lemma _get_file_info_Some fs self filepath w info :
  (_get_file_info fs self filepath w).1 = Some info ->
  exists data encoded,
    fs !! filepath = Some data
    /\ _should_ignore self filepath = false
    /\ Z.of_nat (length data) <= CACHE_MAX_FILE_SIZE
    /\ utf8_encode (read_text data) = Some encoded
    /\ relative_to filepath (watch_dir self) = Some (path info)
    /\ content info = read_text data
    /\ hash info = xxh64_hexdigest encoded
    /\ language info = detect_language filepath
    /\ _get_file_info fs self filepath w = (Some info, w).
Proof.
  unfold _get_file_info. destruct (fs !! filepath) as [data|]; [|intros [=]].
  destruct (_should_ignore self filepath); [intros [=]|].
  destruct (Z.gtb_spec (Z.of_nat (length data)) CACHE_MAX_FILE_SIZE); [intros [=]|].
  cbn zeta.
  destruct (utf8_encode (read_text data)) as [encoded|] eqn:He; [|intros [=]].
  destruct (relative_to filepath (watch_dir self)) as [rel|] eqn:Hrel; [|intros [=]].
  cbn [fst]. intros [= <-]. exists data, encoded. cbn [path content hash language].
  repeat split; auto; lia.
Qed.

(** The fingerprint depends on the bytes through the decoded text only. *)
Lemma _get_file_info_same_text fs fs' self filepath w data data' info info' :
  fs !! filepath = Some data ->
  fs' !! filepath = Some data' ->
  utf8_decode_ignore (List.map Byte.to_N data) = utf8_decode_ignore (List.map Byte.to_N data') ->
  (_get_file_info fs self filepath w).1 = Some info ->
  (_get_file_info fs' self filepath w).1 = Some info' ->
  info = info'.
Proof.
  intros Hd Hd' Hdec Hi Hi'.
  apply _get_file_info_Some in Hi
    as (d & e & Hd1 & _ & _ & He & Hrel & Hcont & Hhash & Hlang & _).
  apply _get_file_info_Some in Hi'
    as (d' & e' & Hd1' & _ & _ & He' & Hrel' & Hcont' & Hhash' & Hlang' & _).
  rewrite Hd in Hd1. rewrite Hd' in Hd1'. injection Hd1 as <-. injection Hd1' as <-.
  assert (Htext : read_text data = read_text data') by (unfold read_text; rewrite Hdec; reflexivity).
  rewrite Htext in He, Hcont. rewrite He' in He. injection He as <-.
  destruct info, info'. cbn [path content hash language] in *. congruence.
Qed.

(** C7 (as the code has it). Change-detection enqueue: for an eligible
    file, tracked or not, a modify event whose recomputed fingerprint is
    not the stored one stores it in the FileIndex and calls [add_to_queue]
    exactly once, with the new record; a modify event whose fingerprint is
    the stored one changes nothing and calls nothing. The fingerprint is
    that of the decoded text, so a one-byte change of the file enqueues
    once exactly when it changes that fingerprint. *)
Theorem on_modified_change_detection (fs : FileSystem) (event : FileSystemEvent)
    (self : Watcher) (w : World) (info : FileInfo) :
  is_directory event = false ->
  (_get_file_info fs self (src_path event) w).1 = Some info ->
  (file_hashes self !! path info <> Some (hash info) ->
     file_hashes (on_modified fs event self w).1
       = <[path info := hash info]> (file_hashes self)
     /\ enqueued (on_modified fs event self w).2 = enqueued w ++ [info])
  /\ (file_hashes self !! path info = Some (hash info) ->
     on_modified fs event self w = (self, w)).
Proof.
  intros Hdir Hinfo.
  apply _get_file_info_Some in Hinfo as (_ & _ & _ & _ & _ & _ & _ & _ & _ & _ & Hinfo).
  unfold on_modified. rewrite Hdir, Hinfo. split; intros Hh.
  - rewrite bool_decide_eq_true_2 by exact Hh.
    cbn [cache_manager set_file_hashes].
    pose proof (add_to_queue_enqueued info (cache_manager self)
                  (emit (Log (LogModified (path info))) w)) as Hq.
    destruct (add_to_queue _ _ _) as [c w']. cbn [fst snd] in *.
    split; [reflexivity|]. rewrite Hq. reflexivity.
  - rewrite bool_decide_eq_false_2; [reflexivity|]. intros Hne. exact (Hne Hh).
Qed.

(** C10. The fingerprint is the hash of the decoded text, re-encoded: when
    the bytes of two versions of a file decode (undecodable bytes dropped)
    to the same code points, the two records are equal, fingerprint
    included, and a modify event for the second version, the first being
    the tracked one, leaves the watcher as it is, calls [add_to_queue]
    zero times and sends nothing. *)
Theorem fingerprint_of_decoded_text (fs fs' : FileSystem) (self : Watcher) (w : World)
    (event : FileSystemEvent) (data data' : list byte) (info : FileInfo) :
  fs !! src_path event = Some data ->
  fs' !! src_path event = Some data' ->
  utf8_decode_ignore (List.map Byte.to_N data) = utf8_decode_ignore (List.map Byte.to_N data') ->
  (_get_file_info fs self (src_path event) w).1 = Some info ->
  file_hashes self !! path info = Some (hash info) ->
  (exists encoded, utf8_encode (translate_newlines (utf8_decode_ignore (List.map Byte.to_N data)))
                   = Some encoded
                   /\ hash info = xxh64_hexdigest encoded)
  /\ (forall info', (_get_file_info fs' self (src_path event) w).1 = Some info' ->
        hash info' = hash info)
  /\ (on_modified fs' event self w).1 = self
  /\ enqueued (on_modified fs' event self w).2 = enqueued w
  /\ posts (on_modified fs' event self w).2 = posts w.
Proof.
  intros Hd Hd' Hdec Hinfo Htracked.
  assert (Hsame : forall info', (_get_file_info fs' self (src_path event) w).1 = Some info' ->
                                info' = info).
  { intros info' Hinfo'. symmetry.
    exact (_get_file_info_same_text fs fs' self _ w data data' info info' Hd Hd' Hdec Hinfo Hinfo'). }
  split; [|split].
  - apply _get_file_info_Some in Hinfo as (d & e & Hd1 & _ & _ & He & _ & _ & Hh & _).
    rewrite Hd in Hd1. injection Hd1 as <-. exists e. split; [exact He|exact Hh].
  - intros info' Hinfo'. rewrite (Hsame info' Hinfo'). reflexivity.
  - unfold on_modified. destruct (is_directory event); [auto|].
    pose proof (_get_file_info_Some fs' self (src_path event) w) as Hw.
    destruct (_get_file_info fs' self (src_path event) w) as [[info'|] w'] eqn:Hrun.
    + pose proof (Hsame info' eq_refl) as Heq. subst info'.
      destruct (Hw info eq_refl) as (_ & _ & _ & _ & _ & _ & _ & _ & _ & _ & [= <-]).
      rewrite bool_decide_eq_false_2; [auto|]. intros Hne. exact (Hne Htracked).
    + cbn [fst snd]. split; [reflexivity|].
      revert Hrun. unfold _get_file_info. rewrite Hd'.
      destruct (_should_ignore self (src_path event)); [intros [= <-]; auto|].
      destruct (_ >? _); [intros [= <-]; rewrite posts_emit_log; auto|].
      destruct (utf8_encode _); [|intros [= <-]; rewrite posts_emit_log; auto].
      destruct (relative_to _ _); [intros [=]|intros [= <-]; rewrite posts_emit_log; auto].
Qed.

End WatcherClaims.

Section DeletionAndMoves.
Context `{Env}.

(** What [on_created] does with an eligible file. *)
Lemma on_created_eligible fs event self w info :
  is_directory event = false ->
  (_get_file_info fs self (src_path event) w).1 = Some info ->
  on_created fs event self w =
    let '(c, w') := add_to_queue info (cache_manager self)
                      (emit (Log (LogCreated (path info))) w) in
    (mkWatcher (watch_dir self) c (<[path info := hash info]> (file_hashes self))
               (gitignore_matcher self), w').
Proof.
  intros Hdir Hinfo.
  apply _get_file_info_Some in Hinfo as (_ & _ & _ & _ & _ & _ & _ & _ & _ & _ & Hinfo).
  unfold on_created. rewrite Hdir, Hinfo.
  cbn [cache_manager set_file_hashes]. destruct (add_to_queue _ _ _). reflexivity.
Qed.


(** C8 (what the code does). A move event reaches the inherited, empty
    [on_moved]: the watcher and the world are returned as they were, so the
    old path stays in [file_hashes] and in [cached_files], and the new path
    is neither indexed nor handed to [add_to_queue]. *)
Theorem dispatch_moved_changes_nothing (fs : FileSystem) (isdir : bool)
    (src dst : pystr) (self : Watcher) (w : World) :
  dispatch fs (mkEvent Moved isdir src dst) self w = Some (self, w).
Proof. reflexivity. Qed.

(** The first watcher does re-index on a move: the old path leaves
    [file_hashes] and the new one enters it with the hash of the file. *)
Lemma basic_on_moved_reindexes fs (event : FileSystemEvent) (self : Basic.Watcher)
    (w : World) src_rel dst_rel file_hash :
  is_directory event = false ->
  relative_to (src_path event) (Basic.watch_dir self) = Some src_rel ->
  relative_to (dest_path event) (Basic.watch_dir self) = Some dst_rel ->
  Basic._hash_file fs self (dest_path event) = Some file_hash ->
  str_truthy file_hash = true ->
  exists self' w',
    Basic.on_moved fs event self w = Some (self', w')
    /\ Basic.file_hashes self' = <[dst_rel := file_hash]> (delete src_rel (Basic.file_hashes self)).
Proof.
  intros Hdir Hsrc Hdst Hhash Ht. unfold Basic.on_moved. rewrite Hdir, Hsrc, Hdst.
  assert (Hh : forall m, Basic._hash_file fs (Basic.set_file_hashes m self) (dest_path event)
                         = Basic._hash_file fs self (dest_path event)) by reflexivity.
  destruct (Basic.file_hashes self !! src_rel) eqn:Hl.
  - rewrite Hh, Hhash, Ht. eexists _, _. split; reflexivity.
  - rewrite Hhash, Ht. eexists _, _. split; [reflexivity|].
    cbn [Basic.file_hashes Basic.set_file_hashes]. rewrite delete_id by exact Hl. reflexivity.
Qed.

End DeletionAndMoves.

(** A byte that cannot start a sequence is dropped by the decoder. *)
Lemma utf8_invalid_start_dropped (b : N) (s : list N) :
  (0x80 <= b < 0xC2 \/ 0xF5 <= b)%N ->
  utf8_decode_ignore (b :: s) = utf8_decode_ignore s.
Proof.
  intros Hb. cbn [utf8_decode_ignore].
  destruct (N.ltb_spec b 0x80); [lia|].
  destruct (N.ltb_spec b 0xC2); [reflexivity|].
  destruct (N.ltb_spec b 0xE0); [lia|].
  destruct (N.ltb_spec b 0xF0); [lia|].
  destruct (N.ltb_spec b 0xF5); [lia|reflexivity].
Qed.

Section ThreadFacts.
Context `{Env}.

Lemma run_reachable schedule : forall s s', run schedule s = Some s' -> rtc step s s'.
Proof.
  induction schedule as [|[|] rest IH]; intros s s'; cbn [run].
  - intros [= ->]. apply rtc_refl.
  - destruct (thread_step (event_thread s) (shared s)) as [[t' sh']|] eqn:Hs; [|intros [=]].
    intros Hr. eapply rtc_l; [apply step_event; exact Hs | apply IH, Hr].
  - destruct (thread_step (timer_thread s) (shared s)) as [[t' sh']|] eqn:Hs; [|intros [=]].
    intros Hr. eapply rtc_l; [apply step_timer; exact Hs | apply IH, Hr].
Qed.


(** *** A thread that runs alone does what the methods do *)

Lemma prime_alone p r td sh :
  exists sh',
    rtc alone (mkThread (FlushPrime p r) td, sh) (mkThread (FlushLoop (p + 1)) td, sh')
    /\ (mgr sh', world sh') = cache_file r (mgr sh) (world sh)
    /\ taken sh' = taken sh /\ appended sh' = appended sh.
Proof.
  unfold cache_file.
  destruct (model_id (mgr sh)) as [m|] eqn:Hm;
    [destruct (negb (str_truthy m)) eqn:Ht;
     [|destruct (already_cached (mgr sh) r) eqn:Hc;
       [|destruct (total_tokens r >? token_budget (mgr sh)) eqn:Hb]]|].
  5: { eexists. split; [apply rtc_once; unfold alone, thread_step; cbn [fst snd pc todo];
                        rewrite Hm; reflexivity|]. repeat split. }
  1-3: eexists; (split; [apply rtc_once; unfold alone, thread_step; cbn [fst snd pc todo];
                        rewrite Hm, Ht, ?Hc, ?Hb; reflexivity|]); repeat split.
  unfold send_priming.
  destruct (http_post (effects (enter (CallCacheFile r) (world sh))) (priming_url (mgr sh))
              (priming_payload m r)) as [code|] eqn:Hout;
    [destruct (code =? 200) eqn:Hcode|].
  all: eexists; (split;
    [eapply rtc_l;
      [unfold alone, thread_step; cbn [fst snd pc todo]; rewrite Hm, Ht, Hc, Hb; reflexivity
      |apply rtc_once; unfold alone, thread_step; cbn [fst snd pc todo mgr world];
       rewrite Hout, ?Hcode; reflexivity]|]); repeat split.
Qed.

Lemma flush_loop_alone n : forall p td sh,
  n = Z.to_nat (CACHE_BATCH_SIZE - p) ->
  exists sh',
    rtc alone (mkThread (FlushLoop p) td, sh) (mkThread Idle td, sh')
    /\ (mgr sh', world sh') = process_loop n (mgr sh) (world sh).
Proof.
  induction n as [|n IH]; intros p td sh Hn.
  - exists sh. split; [|reflexivity]. apply rtc_once. unfold alone, thread_step.
    cbn [fst snd pc todo]. destruct (cache_queue (mgr sh)); [reflexivity|].
    destruct (Z.ltb_spec p CACHE_BATCH_SIZE); [lia|reflexivity].
  - cbn [process_loop]. destruct (cache_queue (mgr sh)) as [|r rest] eqn:Hq.
    + exists sh. split; [|reflexivity]. apply rtc_once. unfold alone, thread_step.
      cbn [fst snd pc todo]. rewrite Hq. reflexivity.
    + destruct (prime_alone p r td
                  (mkShared (set_cache_queue rest (mgr sh)) (world sh) (taken sh ++ [r])
                            (appended sh))) as (sh1 & Hrun1 & Heq1 & _).
      cbn [mgr world] in Heq1.
      destruct (IH (p + 1) td sh1 ltac:(lia)) as (sh2 & Hrun2 & Heq2).
      exists sh2. split.
      * eapply rtc_l; [unfold alone, thread_step; cbn [fst snd pc todo]; rewrite Hq;
                       destruct (Z.ltb_spec p CACHE_BATCH_SIZE); [reflexivity|lia]|].
        eapply rtc_l; [unfold alone, thread_step; cbn [fst snd pc todo]; rewrite Hq;
                       reflexivity|].
        eapply rtc_trans; [exact Hrun1|exact Hrun2].
      * rewrite <- Heq1. exact Heq2.
Qed.

Lemma flush_alone td sh :
  exists sh',
    rtc alone (mkThread FlushEmpty td,
               mkShared (mgr sh) (enter CallProcessQueue (world sh)) (taken sh) (appended sh))
              (mkThread Idle td, sh')
    /\ (mgr sh', world sh') = process_queue (mgr sh) (world sh).
Proof.
  unfold process_queue. destruct (cache_queue (mgr sh)) as [|r rest] eqn:Hq.
  - eexists. split; [apply rtc_once; unfold alone, thread_step;
                     cbn [fst snd pc todo mgr]; rewrite Hq; reflexivity|]. reflexivity.
  - destruct (flush_loop_alone (Z.to_nat CACHE_BATCH_SIZE) 0 td
                (mkShared (mgr sh) (enter CallProcessQueue (world sh)) (taken sh) (appended sh))
                ltac:(f_equal; lia)) as (sh' & Hrun & Heq).
    exists sh'. split; [|exact Heq].
    eapply rtc_l; [|exact Hrun]. unfold alone, thread_step.
    cbn [fst snd pc todo mgr]. rewrite Hq. reflexivity.
Qed.

(** The timer's call: alone, the steps of a flush are [process_queue]. *)
Lemma process_queue_alone td sh :
  exists sh',
    rtc alone (mkThread Idle (OpFlush :: td), sh) (mkThread Idle td, sh')
    /\ (mgr sh', world sh') = process_queue (mgr sh) (world sh).
Proof.
  destruct (flush_alone td sh) as (sh' & Hrun & Heq).
  exists sh'. split; [|exact Heq]. eapply rtc_l; [|exact Hrun]. reflexivity.
Qed.

(** The handler's call: alone, the steps of an enqueue are [add_to_queue]. *)
Lemma add_to_queue_alone r td sh :
  exists sh',
    rtc alone (mkThread Idle (OpAdd r :: td), sh) (mkThread Idle td, sh')
    /\ (mgr sh', world sh') = add_to_queue r (mgr sh) (world sh).
Proof.
  unfold add_to_queue. destruct (already_cached (mgr sh) r) eqn:Hc.
  - eexists. split.
    { eapply rtc_l; [reflexivity|]. apply rtc_once. unfold alone, thread_step.
      cbn [fst snd pc todo mgr]. rewrite Hc. reflexivity. }
    reflexivity.
  - cbn zeta. cbn [cache_queue set_cache_queue].
    destruct (Z.of_nat (length (cache_queue (mgr sh) ++ [r])) >=? CACHE_BATCH_SIZE) eqn:Hlen.
    + destruct (flush_alone td
                 (mkShared (set_cache_queue (cache_queue (mgr sh) ++ [r]) (mgr sh))
                           (enter (CallAddToQueue r) (world sh)) (taken sh)
                           (appended sh ++ [r]))) as (sh' & Hrun & Heq).
      exists sh'. split; [|exact Heq].
      eapply rtc_l; [reflexivity|].
      eapply rtc_l; [unfold alone, thread_step; cbn [fst snd pc todo mgr]; rewrite Hc;
                     reflexivity|].
      eapply rtc_l; [reflexivity|].
      eapply rtc_l; [|exact Hrun].
      unfold alone, thread_step. cbn [fst snd pc todo mgr cache_queue set_cache_queue].
      rewrite Hlen. reflexivity.
    + eexists. split.
      { eapply rtc_l; [reflexivity|].
        eapply rtc_l; [unfold alone, thread_step; cbn [fst snd pc todo mgr]; rewrite Hc;
                       reflexivity|].
        eapply rtc_l; [reflexivity|].
        apply rtc_once. unfold alone, thread_step.
        cbn [fst snd pc todo mgr cache_queue set_cache_queue]. rewrite Hlen. reflexivity. }
      reflexivity.
Qed.





End ThreadFacts.

(** * Examples: the theorems at concrete inputs *)

Example sample_watcher_tracks_a :
  file_hashes sample_watcher.1 !! lit "a.py" = Some [97%N]
  /\ cached_files (cache_manager sample_watcher.1) !! lit "a.py" = Some [97%N]
  /\ length (posts sample_watcher.2) = 1%nat.
Proof. vm_compute. auto. Qed.

(** The dedup theorem at [a.py], primed with success and enqueued again. *)
Lemma add_to_queue_idempotent_dedup_witness :
  let '(self1, w1) := @cache_file env_ok record_a (sample_manager 8192) empty_world in
  let '(self2, w2) := @add_to_queue env_ok record_a self1 w1 in
  self2 = self1
  /\ cache_queue self2 = cache_queue (sample_manager 8192)
  /\ effects w2 = effects w1
  /\ posts w2 = posts w1
  /\ flushes w2 = flushes w1
  /\ primed w2 = primed w1.
Proof.
  exact (@add_to_queue_idempotent_dedup env_ok record_a record_a
           (sample_manager 8192) empty_world (lit "qwen")
           eq_refl eq_refl eq_refl eq_refl).
Defined.

(** The batch trigger with a batch size of two: one record waits, two are
    flushed. *)
Lemma add_to_queue_batch_trigger_witness :
  (let '(self', w') := @add_all env_batch2 [record_a] (sample_manager 8192) empty_world in
   flushes w' = flushes empty_world
   /\ self' = set_cache_queue [record_a] (sample_manager 8192)
   /\ effects w' = effects empty_world
   /\ primed w' = primed empty_world
   /\ cache_queue (@process_queue env_batch2 self' w').1 = []
   /\ primed (@process_queue env_batch2 self' w').2 = primed empty_world ++ [record_a])
  /\ (let '(self', w') := @add_all env_batch2 [record_a; record_b] (sample_manager 8192)
                            empty_world in
      flushes w' = S (flushes empty_world)
      /\ cache_queue self' = []
      /\ primed w' = primed empty_world ++ [record_a; record_b]).
Proof.
  assert (Hpos : 1 <= @CACHE_BATCH_SIZE env_batch2) by (vm_compute; discriminate).
  split.
  - refine (proj1 (@add_to_queue_batch_trigger env_batch2 [record_a] (sample_manager 8192)
                     empty_world Hpos eq_refl _) eq_refl).
    repeat constructor.
  - refine (proj2 (@add_to_queue_batch_trigger env_batch2 [record_a; record_b]
                     (sample_manager 8192) empty_world Hpos eq_refl _) eq_refl).
    repeat constructor.
Defined.

(** A flush with a batch size of two and three queued entries: the first
    two are primed in order, the third stays. *)
Example process_queue_sample :
  cache_queue (@process_queue env_batch2
                 (set_cache_queue [record_a; record_b; info_a] (sample_manager 8192))
                 empty_world).1 = [info_a]
  /\ primed (@process_queue env_batch2
                (set_cache_queue [record_a; record_b; info_a] (sample_manager 8192))
                empty_world).2 = [record_a; record_b]
  /\ length (posts (@process_queue env_batch2
                (set_cache_queue [record_a; record_b; info_a] (sample_manager 8192))
                empty_world).2) = 2%nat.
Proof. vm_compute. repeat split. Qed.

(** The admission test at the boundary: [a.py] is estimated at 113 tokens; with a context
    of 313 it is exactly at the threshold and is sent, with 312 it is one
    over and is rejected with the warning. *)
Lemma cache_file_token_budget_witness :
  total_tokens record_a = 113
  /\ posts (@cache_file env_ok record_a (sample_manager 313) empty_world).2
     = [HttpPost (priming_url (sample_manager 313)) (priming_payload (lit "qwen") record_a)]
  /\ (@cache_file env_ok record_a (sample_manager 312) empty_world).1 = sample_manager 312
  /\ posts (@cache_file env_ok record_a (sample_manager 312) empty_world).2 = []
  /\ effects (@cache_file env_ok record_a (sample_manager 312) empty_world).2
     = [Log (LogTooLarge (lit "a.py") 113)].
Proof.
  split; [reflexivity|].
  destruct (@cache_file_token_budget env_ok record_a (sample_manager 313) empty_world
              (lit "qwen") eq_refl eq_refl eq_refl) as (_ & _ & Hat & _).
  destruct (@cache_file_token_budget env_ok record_a (sample_manager 312) empty_world
              (lit "qwen") eq_refl eq_refl eq_refl) as (_ & _ & _ & Hover).
  split; [exact (Hat eq_refl)|]. exact (Hover eq_refl).
Defined.

(** Failure atomicity when the server answers 500 and when the connection
    fails. *)
Lemma cache_file_failure_atomic_witness :
  (@cache_file env_error record_a (sample_manager 8192) empty_world).1 = sample_manager 8192
  /\ (@cache_file env_down record_a (sample_manager 8192) empty_world).1 = sample_manager 8192
  /\ effects (@cache_file env_error record_a (sample_manager 8192) empty_world).2
     = [HttpPost (priming_url (sample_manager 8192)) (priming_payload (lit "qwen") record_a);
        Log (LogFailedToCache (lit "a.py") 500)].
Proof.
  destruct (proj1 (@cache_file_failure_atomic env_error record_a (sample_manager 8192)
                     empty_world) (lit "qwen") eq_refl
                  ltac:(vm_compute; discriminate)) as (He & _).
  destruct (proj1 (@cache_file_failure_atomic env_down record_a (sample_manager 8192)
                     empty_world) (lit "qwen") eq_refl
                  ltac:(vm_compute; discriminate)) as (Hd & _).
  rewrite He, Hd. repeat split.
Defined.

(** A one-byte change that is not enqueued: one byte of the tracked,
    eligible [a.py] changes (an undecodable byte becomes another), the file
    stays eligible, and the modify event changes nothing and enqueues
    nothing, although the hash of the example has no collisions: the text
    that is hashed is the same. *)
Lemma one_byte_change_not_enqueued :
  one_byte_change bytes_a bytes_a_edited
  /\ sample_fs !! path_a = Some bytes_a
  /\ sample_fs_edited !! path_a = Some bytes_a_edited
  /\ (@_get_file_info env_ok sample_fs sample_watcher.1 path_a sample_watcher.2).1
     = Some info_a
  /\ file_hashes sample_watcher.1 !! path info_a = Some (hash info_a)
  /\ (@_get_file_info env_ok sample_fs_edited sample_watcher.1 path_a sample_watcher.2).1
     = Some info_a
  /\ @on_modified env_ok sample_fs_edited modify_a sample_watcher.1 sample_watcher.2
     = sample_watcher
  /\ enqueued (@on_modified env_ok sample_fs_edited modify_a sample_watcher.1
                 sample_watcher.2).2
     = enqueued sample_watcher.2.
Proof.
  split.
  { exists [x61], xff, xfe, []. repeat split. discriminate. }
  vm_compute. repeat split.
Qed.

(** Change detection at a change that alters the text. *)
Lemma on_modified_change_detection_witness :
  file_hashes (@on_modified env_ok sample_fs_rewritten modify_a sample_watcher.1
                 sample_watcher.2).1
    = <[lit "a.py" := lit "b"]> (file_hashes sample_watcher.1)
  /\ enqueued (@on_modified env_ok sample_fs_rewritten modify_a sample_watcher.1
                 sample_watcher.2).2
     = enqueued sample_watcher.2 ++ [info_a_rewritten].
Proof.
  refine (proj1 (@on_modified_change_detection env_ok sample_fs_rewritten modify_a
                   sample_watcher.1 sample_watcher.2 info_a_rewritten eq_refl _) _).
  - vm_compute. reflexivity.
  - vm_compute. discriminate.
Defined.

(** [a.py] moved to [b.py]: the old path stays indexed and cached, the new
    one is neither indexed nor enqueued. *)
Example moved_file_keeps_old_entries :
  forall s', @dispatch env_ok sample_fs_moved move_a_to_b sample_watcher.1 sample_watcher.2
             = Some s' ->
    file_hashes s'.1 !! lit "a.py" = Some (lit "a")
    /\ cached_files (cache_manager s'.1) !! lit "a.py" = Some (lit "a")
    /\ file_hashes s'.1 !! lit "b.py" = None
    /\ cache_queue (cache_manager s'.1) = []
    /\ enqueued s'.2 = enqueued sample_watcher.2.
Proof.
  intros s'. unfold dispatch, on_moved, move_a_to_b. cbn [event_type].
  intros [= <-]. vm_compute. repeat split.
Qed.

(** The first watcher, on the same move, re-indexes. *)
Example basic_moved_file_reindexed :
  exists self' w',
    @Basic.on_moved env_ok sample_fs_moved move_a_to_b
       (Basic.mkWatcher (lit "/workspace") {[ lit "a.py" := lit "a" ]} (fun _ => false))
       empty_world = Some (self', w')
    /\ Basic.file_hashes self' !! lit "a.py" = None
    /\ is_Some (Basic.file_hashes self' !! lit "b.py").
Proof.
  eexists _, _. split; [vm_compute; reflexivity|]. vm_compute. split; [reflexivity|eauto].
Qed.


(** From that state the handler drains the queue and the timer's [popleft]
    finds it empty: the timer thread dies of an IndexError. *)
Example timer_thread_dies :
  exists s, rtc (@step env_batch2) sample_sys s /\ pc (timer_thread s) = Dead.
Proof.
  assert (Hr : exists s, @run env_batch2 crash_schedule sample_sys = Some s
                 /\ pc (timer_thread s) = Dead).
  { vm_compute. eexists. split; reflexivity. }
  destruct Hr as (s & Hr & Hd). exists s. split; [exact (run_reachable _ _ _ Hr)|exact Hd].
Qed.


(** The fingerprint at [a.py]: the byte that is not UTF-8 changes, the
    record and its fingerprint do not, and the modify event is dropped. *)
Lemma fingerprint_of_decoded_text_witness :
  bytes_a <> bytes_a_edited
  /\ (exists encoded, utf8_encode (translate_newlines
                         (utf8_decode_ignore (List.map Byte.to_N bytes_a))) = Some encoded
                      /\ hash info_a = @xxh64_hexdigest env_ok encoded)
  /\ (forall info', (@_get_file_info env_ok sample_fs_edited sample_watcher.1
                       (src_path modify_a) sample_watcher.2).1 = Some info' ->
                    hash info' = hash info_a)
  /\ (@on_modified env_ok sample_fs_edited modify_a sample_watcher.1 sample_watcher.2).1
     = sample_watcher.1
  /\ enqueued (@on_modified env_ok sample_fs_edited modify_a sample_watcher.1
                 sample_watcher.2).2 = enqueued sample_watcher.2
  /\ posts (@on_modified env_ok sample_fs_edited modify_a sample_watcher.1
              sample_watcher.2).2 = posts sample_watcher.2.
Proof.
  split; [discriminate|].
  exact (@fingerprint_of_decoded_text env_ok sample_fs sample_fs_edited sample_watcher.1
           sample_watcher.2 modify_a bytes_a bytes_a_edited info_a
           ltac:(vm_compute; reflexivity) ltac:(vm_compute; reflexivity)
           eq_refl ltac:(vm_compute; reflexivity) ltac:(vm_compute; reflexivity)).
Defined.

(** * More of the cache manager *)

Section ManagerExtras.
Context `{Env}.

Lemma lit_prompt_length : length (lit "You are analyzing the file: ") = 28%nat.
Proof. reflexivity. Qed.

Lemma lit_fence_length : length (lit "```") = 3%nat.
Proof. reflexivity. Qed.

(** X1. The estimate of [cache_file] counts the characters of the path, the
    language tag and the content, plus 38 of framing; a record is within
    the budget exactly when these three lengths add up to at most
    [4 * max_model_len - 1235], and a longer record is never sent. *)
Theorem admission_threshold_in_characters (r : FileInfo) (self : CacheManager) (w : World) :
  let chars := Z.of_nat (length (path r) + length (language r) + length (content r)) in
  total_tokens r = (38 + chars) / 4 + 100
  /\ (total_tokens r <= token_budget self <-> chars <= 4 * max_model_len self - 1235)
  /\ (4 * max_model_len self - 1235 < chars ->
      (cache_file r self w).1 = self /\ posts (cache_file r self w).2 = posts w).
Proof.
  intros chars.
  assert (Hform : total_tokens r = (38 + chars) / 4 + 100).
  { unfold total_tokens, _estimate_tokens, system_prompt, file_content.
    rewrite !length_app, lit_prompt_length, lit_fence_length. cbn [length].
    subst chars. apply (f_equal (fun x => x / 4 + 100)). lia. }
  assert (Hiff : total_tokens r <= token_budget self <-> chars <= 4 * max_model_len self - 1235).
  { rewrite Hform. unfold token_budget.
    split; intros Hle; Z.to_euclidean_division_equations; lia. }
  split; [exact Hform|]. split; [exact Hiff|].
  intros Hover.
  assert (Ha : admitted self r = None).
  { destruct (admitted self r) as [m|] eqn:Ha; [|reflexivity].
    apply admitted_Some in Ha as (_ & _ & _ & Hle). apply Hiff in Hle. lia. }
  destruct (cache_file_not_admitted r self w Ha) as (w' & -> & Hp & _).
  split; [reflexivity|exact Hp].
Qed.

Lemma same_settings_refl c : same_settings c c.
Proof. repeat split. Qed.

Lemma same_settings_trans c1 c2 c3 :
  same_settings c1 c2 -> same_settings c2 c3 -> same_settings c1 c3.
Proof.
  intros (A1 & A2 & A3) (B1 & B2 & B3). repeat split; congruence.
Qed.

Lemma cache_file_settings r self w : same_settings self (cache_file r self w).1.
Proof.
  pose proof (cache_file_frame r self w) as Hf. destruct (cache_file r self w).
  destruct Hf as (_ & A & B & C & _). repeat split; assumption.
Qed.

(** An invariant of the manager and the world that [cache_file] keeps is
    kept by [process_queue] and by [add_to_queue], provided it does not
    look at the queue nor at the ghost record of calls. *)
Section ManagerInvariant.
Variable P : CacheManager -> World -> Prop.
Hypothesis P_cache_file : forall r c w, P c w -> P (cache_file r c w).1 (cache_file r c w).2.
Hypothesis P_queue : forall q c w, P c w -> P (set_cache_queue q c) w.
Hypothesis P_enter : forall x c w, P c w -> P c (enter x w).

Lemma prime_all_invariant rs : forall c w, P c w -> P (prime_all rs c w).1 (prime_all rs c w).2.
Proof.
  induction rs as [|r rs IH]; intros c w HP; [exact HP|].
  rewrite prime_all_cons. apply IH, P_cache_file, HP.
Qed.

Lemma process_queue_invariant c w :
  P c w -> P (process_queue c w).1 (process_queue c w).2.
Proof.
  intros HP. rewrite process_queue_prime_all.
  apply prime_all_invariant, P_queue, P_enter, HP.
Qed.

Lemma add_to_queue_invariant r c w :
  P c w -> P (add_to_queue r c w).1 (add_to_queue r c w).2.
Proof.
  intros HP. unfold add_to_queue.
  destruct (already_cached c r); [apply P_enter, HP|].
  cbn zeta. destruct (_ >=? _).
  - apply process_queue_invariant, P_queue, P_enter, HP.
  - apply P_queue, P_enter, HP.
Qed.

End ManagerInvariant.

(** X2. [cache_file] after a priming that succeeded, for the same path and
    fingerprint: nothing is sent and nothing changes. *)
Theorem cache_file_idempotent_after_success (r r' : FileInfo) (self : CacheManager)
    (w : World) (m : pystr) :
  admitted self r = Some m ->
  http_post (effects w) (priming_url self) (priming_payload m r) = Responded 200 ->
  path r' = path r ->
  hash r' = hash r ->
  cache_file r' (cache_file r self w).1 (cache_file r self w).2
  = ((cache_file r self w).1, enter (CallCacheFile r') (cache_file r self w).2).
Proof.
  intros Ha Hok Hp Hh.
  pose proof (cache_file_ok_cached r self w m Ha Hok) as Hc.
  pose proof (cache_file_frame r self w) as Hf.
  destruct (cache_file r self w) as [self1 w1]. cbn [fst snd] in *.
  destruct Hf as (_ & _ & Hm & _).
  apply admitted_Some in Ha as (Hmid & Ht & _).
  unfold cache_file. rewrite Hm, Hmid, Ht. cbn [negb].
  unfold already_cached. rewrite Hp, Hh, bool_decide_eq_true_2 by exact Hc. reflexivity.
Qed.

Lemma cache_file_posts_bound r c w :
  (length (posts (cache_file r c w).2) <= length (posts w) + 1)%nat.
Proof.
  destruct (admitted c r) as [m|] eqn:Ha.
  - rewrite (cache_file_admitted _ _ _ _ Ha). unfold send_priming.
    destruct (http_post _ _ _) as [code|]; [destruct (code =? 200)|]; cbn [snd];
      rewrite posts_emit_log, posts_emit_post, posts_enter, length_app; cbn [length]; lia.
  - destruct (cache_file_not_admitted r c w Ha) as (w' & -> & Hp & _). cbn [snd].
    rewrite Hp. lia.
Qed.

Lemma prime_all_posts_bound rs : forall c w,
  (length (posts (prime_all rs c w).2) <= length (posts w) + length rs)%nat.
Proof.
  induction rs as [|r rs IH]; intros c w; [cbn; lia|].
  rewrite prime_all_cons. etrans; [apply IH|].
  pose proof (cache_file_posts_bound r c w). cbn [length]. lia.
Qed.

(** X3. A flush sends at most as many requests as the batch size, and at most
    as many as there are queued entries; an enqueue sends none unless it
    fills the batch. *)
Theorem process_queue_request_bound (self : CacheManager) (w : World) (r : FileInfo) :
  (length (posts (process_queue self w).2)
   <= length (posts w) + Nat.min (Z.to_nat CACHE_BATCH_SIZE) (length (cache_queue self)))%nat
  /\ (length (posts (add_to_queue r self w).2)
      <= length (posts w) + Z.to_nat CACHE_BATCH_SIZE)%nat
  /\ (Z.of_nat (length (cache_queue self)) + 1 < CACHE_BATCH_SIZE ->
      posts (add_to_queue r self w).2 = posts w).
Proof.
  assert (Hpq : forall c v,
    (length (posts (process_queue c v).2)
     <= length (posts v) + Nat.min (Z.to_nat CACHE_BATCH_SIZE) (length (cache_queue c)))%nat).
  { intros c v. rewrite process_queue_prime_all.
    etrans; [apply prime_all_posts_bound|]. rewrite length_take. reflexivity. }
  split; [apply Hpq|]. split.
  - unfold add_to_queue. destruct (already_cached self r); [cbn [snd]; rewrite posts_enter; lia|].
    cbn zeta. destruct (_ >=? _); [|cbn [snd]; rewrite posts_enter; lia].
    etrans; [apply Hpq|]. rewrite posts_enter. lia.
  - intros Hlt. unfold add_to_queue. destruct (already_cached self r); [reflexivity|].
    cbn zeta. cbn [cache_queue set_cache_queue]. rewrite length_app. cbn [length].
    destruct (Z.geb_spec (Z.of_nat (length (cache_queue self) + 1)) CACHE_BATCH_SIZE);
      [lia|reflexivity].
Qed.

(** X4. With a batch size of zero or less the queue is a dead end: a flush
    primes nothing and removes nothing, and an enqueue only appends. *)
Theorem nonpositive_batch_size_never_primes (self : CacheManager) (w : World) (r : FileInfo) :
  CACHE_BATCH_SIZE <= 0 ->
  process_queue self w = (self, enter CallProcessQueue w)
  /\ posts (add_to_queue r self w).2 = posts w
  /\ cached_files (add_to_queue r self w).1 = cached_files self
  /\ (already_cached self r = false ->
      cache_queue (add_to_queue r self w).1 = cache_queue self ++ [r]).
Proof.
  intros Hb.
  assert (Hpq : forall c v, process_queue c v = (c, enter CallProcessQueue v)).
  { intros c v. unfold process_queue. destruct (cache_queue c); [reflexivity|].
    replace (Z.to_nat CACHE_BATCH_SIZE) with 0%nat by lia. reflexivity. }
  split; [apply Hpq|]. unfold add_to_queue.
  destruct (already_cached self r); [repeat split; discriminate|].
  cbn zeta. rewrite Hpq. destruct (_ >=? _); repeat split.
Qed.

Lemma flush_times_S k c w :
  flush_times (S k) c w = flush_times k (process_queue c w).1 (process_queue c w).2.
Proof. cbn [flush_times]. destruct (process_queue c w). reflexivity. Qed.

(** X5. Flushes compose: [k] calls of [process_queue] in a row prime the first
    [k * CACHE_BATCH_SIZE] entries in order and leave the others; so a
    queue is empty after enough periods of the timer, when the batch size
    is positive. *)
Theorem flush_times_drains (k : nat) (self : CacheManager) (w : World) :
  let n := (k * Z.to_nat CACHE_BATCH_SIZE)%nat in
  cache_queue (flush_times k self w).1 = drop n (cache_queue self)
  /\ primed (flush_times k self w).2 = primed w ++ take n (cache_queue self)
  /\ flushes (flush_times k self w).2 = (flushes w + k)%nat
  /\ ((length (cache_queue self) <= n)%nat -> cache_queue (flush_times k self w).1 = []).
Proof.
  intros n.
  assert (Hmain : cache_queue (flush_times k self w).1 = drop n (cache_queue self)
            /\ primed (flush_times k self w).2 = primed w ++ take n (cache_queue self)
            /\ flushes (flush_times k self w).2 = (flushes w + k)%nat).
  { subst n. revert self w. induction k as [|k IH]; intros self w.
    - cbn [flush_times fst snd Nat.mul]. rewrite drop_0, take_0, app_nil_r. repeat split. lia.
    - rewrite flush_times_S.
      destruct (process_queue_frame self w) as (Hq & Hp & Hf).
      destruct (IH (process_queue self w).1 (process_queue self w).2) as (IH1 & IH2 & IH3).
      rewrite IH1, IH2, IH3, Hq, Hp, Hf. cbn [Nat.mul].
      rewrite drop_drop, <- app_assoc, take_take_drop. repeat split. lia. }
  destruct Hmain as (H1 & H2 & H3). repeat split; try assumption.
  intros Hlen. rewrite H1. apply drop_ge. exact Hlen.
Qed.

End ManagerExtras.

(** * Runs of the watcher *)

Section RunInvariants.
Context `{Env}.

(** [_get_file_info] writes at most one line to the log. *)
Lemma _get_file_info_world fs self filepath w :
  (_get_file_info fs self filepath w).2 = w
  \/ exists lg, (_get_file_info fs self filepath w) = (None, emit (Log lg) w).
Proof.
  unfold _get_file_info. destruct (fs !! filepath); [|left; reflexivity].
  destruct (_should_ignore _ _); [left; reflexivity|].
  destruct (_ >? _); [right; eexists; reflexivity|].
  cbn zeta. destruct (utf8_encode _); [|right; eexists; reflexivity].
  destruct (relative_to _ _); [left; reflexivity|right; eexists; reflexivity].
Qed.

(** [_get_file_info] reads the watch directory and the matcher only. *)
Lemma _get_file_info_state fs self self' filepath w w' :
  watch_dir self' = watch_dir self ->
  gitignore_matcher self' = gitignore_matcher self ->
  (_get_file_info fs self' filepath w').1 = (_get_file_info fs self filepath w).1.
Proof.
  intros Hd Hg. unfold _get_file_info, _should_ignore. rewrite Hd, Hg.
  destruct (fs !! filepath); [|reflexivity].
  destruct (_ || _); [reflexivity|]. destruct (_ >? _); [reflexivity|].
  cbn zeta. destruct (utf8_encode _); [|reflexivity].
  destruct (relative_to _ _); reflexivity.
Qed.

(** An invariant of the manager and the world that the methods of the
    manager keep, and that logging and forgetting a cached entry keep, is
    kept by every handler, by the timer and by the initial scan. *)
Section WatcherInvariant.
Variable P : CacheManager -> World -> Prop.
Hypothesis P_cache_file : forall r c w, P c w -> P (cache_file r c w).1 (cache_file r c w).2.
Hypothesis P_add : forall r c w, P c w -> P (add_to_queue r c w).1 (add_to_queue r c w).2.
Hypothesis P_flush : forall c w, P c w -> P (process_queue c w).1 (process_queue c w).2.
Hypothesis P_log : forall lg c w, P c w -> P c (emit (Log lg) w).
Hypothesis P_delete : forall p c w,
  P c w -> P (set_cached_files (delete p (cached_files c)) c) w.

Lemma P_get_file_info fs self filepath c w :
  P c w -> P c (_get_file_info fs self filepath w).2.
Proof.
  intros HP. destruct (_get_file_info_world fs self filepath w) as [->|(lg & ->)];
    [exact HP|apply P_log, HP].
Qed.

Lemma act_invariant a self w self' w' :
  act a self w = Some (self', w') ->
  P (cache_manager self) w ->
  P (cache_manager self') w'
  /\ watch_dir self' = watch_dir self
  /\ gitignore_matcher self' = gitignore_matcher self.
Proof.
  intros Hact HP. destruct a as [fs event|]; cbn [act] in Hact.
  - unfold dispatch in Hact. destruct (event_type event).
    + injection Hact as Hact. revert Hact. unfold on_created.
      destruct (is_directory event); [intros [= <- <-]; auto|].
      pose proof (P_get_file_info fs self (src_path event) _ w HP) as HP'.
      destruct (_get_file_info fs self (src_path event) w) as [[info|] w1];
        cbn [snd] in HP'; [|intros [= <- <-]; auto].
      cbn [cache_manager set_file_hashes].
      pose proof (P_add info (cache_manager self) (emit (Log (LogCreated (path info))) w1)
                    (P_log _ _ _ HP')) as Hadd.
      destruct (add_to_queue _ _ _) as [c w2]. intros [= <- <-]. auto.
    + injection Hact as Hact. revert Hact. unfold on_modified.
      destruct (is_directory event); [intros [= <- <-]; auto|].
      pose proof (P_get_file_info fs self (src_path event) _ w HP) as HP'.
      destruct (_get_file_info fs self (src_path event) w) as [[info|] w1];
        cbn [snd] in HP'; [|intros [= <- <-]; auto].
      destruct (bool_decide _); [|intros [= <- <-]; auto].
      cbn [cache_manager set_file_hashes].
      pose proof (P_add info (cache_manager self) (emit (Log (LogModified (path info))) w1)
                    (P_log _ _ _ HP')) as Hadd.
      destruct (add_to_queue _ _ _) as [c w2]. intros [= <- <-]. auto.
    + revert Hact. unfold on_deleted.
      destruct (is_directory event); [intros [= <- <-]; auto|].
      destruct (relative_to _ _) as [p|]; [|intros [=]].
      destruct (file_hashes self !! p); [|intros [= <- <-]; auto].
      cbn [cache_manager set_file_hashes set_cache_manager].
      intros [= <- <-]. cbn [cache_manager watch_dir gitignore_matcher].
      split; [|auto]. apply P_log.
      destruct (cached_files (cache_manager self) !! p); [apply P_delete|]; exact HP.
    + injection Hact as <- <-. auto.
  - pose proof (P_flush (cache_manager self) w HP) as Hpq.
    destruct (process_queue _ _) as [c w2]. injection Hact as <- <-. auto.
Qed.

Lemma run_actions_invariant l : forall self w self' w',
  run_actions l self w = Some (self', w') ->
  P (cache_manager self) w ->
  P (cache_manager self') w'
  /\ watch_dir self' = watch_dir self
  /\ gitignore_matcher self' = gitignore_matcher self.
Proof.
  induction l as [|a l IH]; intros self w self' w'; cbn [run_actions].
  - intros [= <- <-]. auto.
  - destruct (act a self w) as [[self1 w1]|] eqn:Hact; [|intros [=]].
    intros Hrun HP. destruct (act_invariant _ _ _ _ _ Hact HP) as (HP1 & Hd & Hg).
    destruct (IH _ _ _ _ Hrun HP1) as (HP2 & Hd2 & Hg2).
    split; [exact HP2|]. split; congruence.
Qed.

Lemma initial_scan_invariant fs rglob : forall self w,
  P (cache_manager self) w ->
  P (cache_manager (_initial_scan fs rglob self w).1) (_initial_scan fs rglob self w).2.
Proof.
  induction rglob as [|filepath rest IH]; intros self w HP; [exact HP|].
  cbn [_initial_scan]. unfold scan_one.
  pose proof (P_get_file_info fs self filepath _ w HP) as HP'.
  destruct (_get_file_info fs self filepath w) as [[info|] w1]; cbn [snd] in HP'.
  - cbn [cache_manager set_file_hashes].
    pose proof (P_cache_file info _ _ HP') as Hc.
    destruct (cache_file info (cache_manager self) w1) as [c w2]. apply IH. exact Hc.
  - apply IH. exact HP'.
Qed.

End WatcherInvariant.

(** X6. The settings of the manager, the watch directory and the ignore rules
    are fixed once the watcher is built: no handler, no flush and no scan
    changes the endpoint, the model identifier or the context length that
    the admission test uses. *)
Theorem settings_never_change (fs : FileSystem) (rglob : list pystr) (l : list Action)
    (self self' : Watcher) (w w' : World) :
  run_actions l (_initial_scan fs rglob self w).1 (_initial_scan fs rglob self w).2
    = Some (self', w') ->
  same_settings (cache_manager self) (cache_manager self')
  /\ watch_dir self' = watch_dir self
  /\ gitignore_matcher self' = gitignore_matcher self.
Proof.
  set (P := fun (c : CacheManager) (_ : World) => same_settings (cache_manager self) c).
  assert (Pc : forall r c v, P c v -> P (cache_file r c v).1 (cache_file r c v).2).
  { intros r c v HP. exact (same_settings_trans _ _ _ HP (cache_file_settings r c v)). }
  assert (Pq : forall q c v, P c v -> P (set_cache_queue q c) v) by (intros q c v HP; exact HP).
  assert (Pe : forall x c v, P c v -> P c (enter x v)) by (intros x c v HP; exact HP).
  assert (Pl : forall lg c v, P c v -> P c (emit (Log lg) v)) by (intros lg c v HP; exact HP).
  assert (Pd : forall p c v, P c v -> P (set_cached_files (delete p (cached_files c)) c) v)
    by (intros p c v HP; exact HP).
  assert (Pa := add_to_queue_invariant P Pc Pq Pe).
  assert (Pf := process_queue_invariant P Pc Pq Pe).
  pose proof (initial_scan_invariant P Pc Pl fs rglob self w (same_settings_refl _)) as Hscan.
  assert (Hscan_dir : watch_dir (_initial_scan fs rglob self w).1 = watch_dir self
                      /\ gitignore_matcher (_initial_scan fs rglob self w).1
                         = gitignore_matcher self).
  { clear. revert self w. induction rglob as [|p rest IH]; intros self w; [auto|].
    cbn [_initial_scan]. unfold scan_one.
    destruct (_get_file_info fs self p w) as [[info|] w1].
    - cbn [cache_manager set_file_hashes]. destruct (cache_file _ _ _) as [c w2].
      destruct (IH (set_cache_manager c
                      (set_file_hashes (<[path info:=hash info]> (file_hashes self)) self)) w2)
        as [-> ->]. auto.
    - apply IH. }
  intros Hrun.
  destruct (run_actions_invariant P Pa Pf Pl Pd l _ _ _ _ Hrun Hscan) as (HP & Hd & Hg).
  destruct Hscan_dir as [Hd0 Hg0]. split; [exact HP|]. split; congruence.
Qed.

Lemma cache_file_no_model r c w :
  no_model c -> cache_file r c w = (c, enter (CallCacheFile r) w).
Proof. intros [Hm|Hm]; unfold cache_file; rewrite Hm; reflexivity. Qed.

Lemma no_model_run (fs : FileSystem) (rglob : list pystr) (l : list Action)
    (self self' : Watcher) (w w' : World) :
  no_model (cache_manager self) ->
  run_actions l (_initial_scan fs rglob self w).1 (_initial_scan fs rglob self w).2
    = Some (self', w') ->
  posts w' = posts w
  /\ no_model (cache_manager self')
  /\ posts (_initial_scan fs rglob self w).2 = posts w.
Proof.
  intros Hnm.
  set (P := fun (c : CacheManager) (v : World) => no_model c /\ posts v = posts w).
  assert (Pc : forall r c v, P c v -> P (cache_file r c v).1 (cache_file r c v).2).
  { intros r c v [Hn Hp]. rewrite (cache_file_no_model r c v Hn). split; assumption. }
  assert (Pq : forall q c v, P c v -> P (set_cache_queue q c) v) by (intros q c v HP; exact HP).
  assert (Pe : forall x c v, P c v -> P c (enter x v)) by (intros x c v HP; exact HP).
  assert (Pl : forall lg c v, P c v -> P c (emit (Log lg) v)).
  { intros lg c v [Hn Hp]. split; [exact Hn|]. rewrite posts_emit_log. exact Hp. }
  assert (Pd : forall p c v, P c v -> P (set_cached_files (delete p (cached_files c)) c) v)
    by (intros p c v HP; exact HP).
  assert (Pa := add_to_queue_invariant P Pc Pq Pe).
  assert (Pf := process_queue_invariant P Pc Pq Pe).
  pose proof (initial_scan_invariant P Pc Pl fs rglob self w (conj Hnm eq_refl)) as Hscan.
  intros Hrun.
  destruct (run_actions_invariant P Pa Pf Pl Pd l _ _ _ _ Hrun Hscan) as ((Hn & Hp) & _).
  destruct Hscan as [_ Hp0]. auto.
Qed.

(** X7. Without a model identifier nothing is ever sent: not by the initial
    scan, not by any handler, not by any flush; and since no method sets
    the identifier, this lasts as long as the process. *)
Theorem no_model_never_posts (fs : FileSystem) (rglob : list pystr) (l : list Action)
    (self self' : Watcher) (w w' : World) :
  no_model (cache_manager self) ->
  run_actions l (_initial_scan fs rglob self w).1 (_initial_scan fs rglob self w).2
    = Some (self', w') ->
  posts w' = posts w
  /\ no_model (cache_manager self')
  /\ posts (_initial_scan fs rglob self w).2 = posts w.
Proof. exact (no_model_run fs rglob l self self' w w'). Qed.

(** X8. At rest the queue is shorter than the batch size: with a positive
    batch size, if the queue holds fewer than [CACHE_BATCH_SIZE] entries,
    it still does after any sequence of events and timer periods handled
    one after the other. *)
Theorem queue_stays_below_batch_size (l : list Action) (self self' : Watcher)
    (w w' : World) :
  1 <= CACHE_BATCH_SIZE ->
  Z.of_nat (length (cache_queue (cache_manager self))) < CACHE_BATCH_SIZE ->
  run_actions l self w = Some (self', w') ->
  Z.of_nat (length (cache_queue (cache_manager self'))) < CACHE_BATCH_SIZE.
Proof.
  intros Hb Hlen Hrun.
  set (P := fun (c : CacheManager) (_ : World) =>
              Z.of_nat (length (cache_queue c)) < CACHE_BATCH_SIZE).
  assert (Pf : forall c v, P c v -> P (process_queue c v).1 (process_queue c v).2).
  { intros c v HP. destruct (process_queue_frame c v) as (Hq & _). unfold P. rewrite Hq.
    rewrite length_drop. unfold P in HP. lia. }
  assert (Pa : forall r c v, P c v -> P (add_to_queue r c v).1 (add_to_queue r c v).2).
  { intros r c v HP. unfold P in *. unfold add_to_queue.
    destruct (already_cached c r); [exact HP|]. cbn zeta.
    cbn [cache_queue set_cache_queue].
    destruct (Z.geb_spec (Z.of_nat (length (cache_queue c ++ [r]))) CACHE_BATCH_SIZE)
      as [Hge|Hlt]; [|exact Hlt].
    match goal with
    | |- context [process_queue ?s ?x] => destruct (process_queue_frame s x) as (Hq & _)
    end.
    rewrite Hq. cbn [cache_queue set_cache_queue]. rewrite length_drop, length_app.
    cbn [length]. lia. }
  assert (Pl : forall lg c v, P c v -> P c (emit (Log lg) v)) by (intros lg c v HP; exact HP).
  assert (Pd : forall p c v, P c v -> P (set_cached_files (delete p (cached_files c)) c) v)
    by (intros p c v HP; exact HP).
  exact (proj1 (run_actions_invariant P Pa Pf Pl Pd l _ _ _ _ Hrun Hlen)).
Qed.





End RunInvariants.

(** * The text that is read and the bytes that are hashed *)

Ltac bool_facts :=
  repeat match goal with
  | H : (_ || _) = false |- _ => apply orb_false_iff in H as [? ?]
  | H : (_ && _) = true |- _ => apply andb_true_iff in H as [? ?]
  | H : (_ && _) = false |- _ => apply andb_false_iff in H as [?|?]
  | H : negb _ = false |- _ => apply negb_false_iff in H
  | H : negb _ = true |- _ => apply negb_true_iff in H
  | H : is_continuation _ = true |- _ =>
      unfold is_continuation in H; apply andb_true_iff in H as [? ?]
  | H : (if ?b then _ else _) = _ |- _ => destruct b eqn:?
  | H : (_ <? _)%N = true |- _ => apply N.ltb_lt in H
  | H : (_ <? _)%N = false |- _ => apply N.ltb_ge in H
  | H : (_ <=? _)%N = true |- _ => apply N.leb_le in H
  | H : (_ <=? _)%N = false |- _ => apply N.leb_gt in H
  | H : (_ =? _)%N = true |- _ => apply N.eqb_eq in H
  | H : (_ =? _)%N = false |- _ => apply N.eqb_neq in H
  end.

(** The decoder yields scalar values only, and no more bytes' worth of
    them than it was given. *)
Lemma utf8_decode_facts (n : nat) : forall s : list N,
  (length s <= n)%nat ->
  Forall is_scalar (utf8_decode_ignore s)
  /\ (utf8_size (utf8_decode_ignore s) <= length s)%nat.
Proof.
  induction n as [|n IH]; intros s Hlen.
  - destruct s; [|cbn [length] in Hlen; lia]. split; [constructor|reflexivity].
  - destruct s as [|ch s1]; [split; [constructor|reflexivity]|].
    cbn [utf8_decode_ignore].
    repeat case_match; subst; cbn [length] in *.
    all: try (split; [constructor | apply Nat.le_0_l]; fail).
    all: match goal with
        | |- context [utf8_decode_ignore ?t] =>
            destruct (IH t ltac:(cbn [length]; lia)) as [IHs IHl]
        end.
    all: cbn [length] in IHl.
    all: split.
    all: try exact IHs.
    all: try (constructor; [|exact IHs]; bool_facts; unfold is_scalar; lia).
    all: try lia.
    all: match goal with
         | |- (utf8_size (?c :: ?l) <= _)%nat =>
             change (utf8_size (c :: l)) with (utf8_len c + utf8_size l)%nat;
             bool_facts; unfold utf8_len; repeat case_match; bool_facts; lia
         end.
Qed.

(** What newline translation keeps and what it removes. *)
Lemma translate_newlines_facts (n : nat) : forall s : pystr,
  (length s <= n)%nat ->
  (Forall is_scalar s -> Forall is_scalar (translate_newlines s))
  /\ (utf8_size (translate_newlines s) <= utf8_size s)%nat
  /\ (CR ∉ translate_newlines s)
  /\ (CR ∉ s -> translate_newlines s = s).
Proof.
  assert (Hlf : is_scalar LF) by (unfold is_scalar, LF; lia).
  induction n as [|n IH]; intros s Hlen.
  - destruct s; [|cbn [length] in Hlen; lia].
    split; [intros _; constructor|]. split; [reflexivity|].
    split; [apply not_elem_of_nil|reflexivity].
  - destruct s as [|c s1].
    { split; [intros _; constructor|]. split; [reflexivity|].
      split; [apply not_elem_of_nil|reflexivity]. }
    cbn [translate_newlines].
    destruct (N.eqb_spec c CR) as [->|Hc].
    + destruct s1 as [|c2 s2].
      * split; [|split; [|split]].
        -- intros _. constructor; [exact Hlf|constructor].
        -- reflexivity.
        -- intros [=]%list_elem_of_singleton.
        -- intros Hn. destruct Hn. left.
      * destruct (N.eqb_spec c2 LF) as [->|Hc2].
        -- destruct (IH s2 ltac:(cbn [length] in Hlen; lia)) as (I1 & I2 & I3 & _).
           split; [|split; [|split]].
           ++ intros Hs. inversion_clear Hs as [|? ? _ Hs']. inversion_clear Hs' as [|? ? _ Hs2].
              constructor; [exact Hlf|apply I1, Hs2].
           ++ change (utf8_size (LF :: translate_newlines s2))
                with (1 + utf8_size (translate_newlines s2))%nat.
              change (utf8_size (CR :: LF :: s2)) with (1 + (1 + utf8_size s2))%nat. lia.
           ++ intros [[=]|Hin]%elem_of_cons. exact (I3 Hin).
           ++ intros Hn. destruct Hn. left.
        -- destruct (IH (c2 :: s2) ltac:(cbn [length] in *; lia)) as (I1 & I2 & I3 & _).
           split; [|split; [|split]].
           ++ intros Hs. inversion_clear Hs as [|? ? _ Hs'].
              constructor; [exact Hlf|apply I1, Hs'].
           ++ change (utf8_size (LF :: translate_newlines (c2 :: s2)))
                with (1 + utf8_size (translate_newlines (c2 :: s2)))%nat.
              change (utf8_size (CR :: c2 :: s2)) with (1 + utf8_size (c2 :: s2))%nat. lia.
           ++ intros [[=]|Hin]%elem_of_cons. exact (I3 Hin).
           ++ intros Hn. destruct Hn. left.
    + destruct (IH s1 ltac:(cbn [length] in Hlen; lia)) as (I1 & I2 & I3 & I4).
      split; [|split; [|split]].
      * intros Hs. inversion_clear Hs as [|? ? Hc0 Hs']. constructor; [exact Hc0|apply I1, Hs'].
      * change (utf8_size (c :: translate_newlines s1))
          with (utf8_len c + utf8_size (translate_newlines s1))%nat.
        change (utf8_size (c :: s1)) with (utf8_len c + utf8_size s1)%nat. lia.
      * intros [Heq|Hin]%elem_of_cons; [exact (Hc (eq_sym Heq))|exact (I3 Hin)].
      * intros Hn. rewrite I4; [reflexivity|]. intros Hin. apply Hn. right. exact Hin.
Qed.

Lemma utf8_len_pos c : (1 <= utf8_len c)%nat.
Proof. unfold utf8_len. repeat case_match; lia. Qed.

Lemma length_le_utf8_size s : (length s <= utf8_size s)%nat.
Proof.
  induction s as [|c s IH]; [reflexivity|].
  change (utf8_size (c :: s)) with (utf8_len c + utf8_size s)%nat.
  pose proof (utf8_len_pos c). cbn [length]. lia.
Qed.

(** A string of scalar values encodes, to as many bytes as its size. *)
Lemma utf8_encode_scalar s :
  Forall is_scalar s -> exists e, utf8_encode s = Some e /\ length e = utf8_size s.
Proof.
  induction 1 as [|c s Hc _ (e & He & Hl)]; [exists []; split; reflexivity|].
  cbn [utf8_encode]. rewrite He.
  change (utf8_size (c :: s)) with (utf8_len c + utf8_size s)%nat.
  unfold utf8_encode_char, utf8_len, is_scalar in *.
  repeat case_match; bool_facts; simplify_eq;
    try (eexists; split; [reflexivity|rewrite length_app; cbn [length]; lia]);
    lia.
Qed.

(** The text read from a file is made of scalar values, holds no carriage
    return, and is no longer than the file. *)
Lemma read_text_facts data :
  Forall is_scalar (read_text data)
  /\ (CR ∉ read_text data)
  /\ (utf8_size (read_text data) <= length data)%nat.
Proof.
  unfold read_text.
  destruct (utf8_decode_facts _ (List.map Byte.to_N data) (Nat.le_refl _)) as [Hs Hl].
  destruct (translate_newlines_facts _ (utf8_decode_ignore (List.map Byte.to_N data))
              (Nat.le_refl _)) as (T1 & T2 & T3 & _).
  rewrite length_map in Hl. split; [apply T1, Hs|]. split; [exact T3|]. lia.
Qed.

Lemma byte_of_N_to_N n : (n < 256)%N -> Byte.to_N (byte_of_N n) = n.
Proof.
  intros Hn. unfold byte_of_N. destruct (Byte.of_N n) as [b|] eqn:Hb.
  - cbn [default]. apply Byte.to_of_N. exact Hb.
  - apply Byte.of_N_None_iff in Hb. lia.
Qed.

(** The decoder on a well-formed sequence of one, two, three and four
    bytes. *)
Lemma utf8_decode_1 ch s :
  (ch < 0x80)%N -> utf8_decode_ignore (ch :: s) = ch :: utf8_decode_ignore s.
Proof.
  intros Hc. cbn [utf8_decode_ignore]. destruct (N.ltb_spec ch 0x80); [reflexivity|lia].
Qed.

Lemma utf8_decode_2 ch ch2 s :
  (0xC2 <= ch < 0xE0)%N -> (0x80 <= ch2 < 0xC0)%N ->
  utf8_decode_ignore (ch :: ch2 :: s)
  = ((ch - 0xC0) * 64 + (ch2 - 0x80))%N :: utf8_decode_ignore s.
Proof.
  intros Hc H2. cbn [utf8_decode_ignore]. unfold is_continuation.
  destruct (N.ltb_spec ch 0x80); [lia|]. destruct (N.ltb_spec ch 0xC2); [lia|].
  destruct (N.ltb_spec ch 0xE0); [|lia].
  destruct (N.leb_spec 0x80 ch2); [|lia]. destruct (N.ltb_spec ch2 0xC0); [|lia].
  reflexivity.
Qed.

Lemma utf8_decode_3 ch ch2 ch3 s :
  (0xE0 <= ch < 0xF0)%N -> (0x80 <= ch2 < 0xC0)%N -> (0x80 <= ch3 < 0xC0)%N ->
  (ch = 0xE0 -> 0xA0 <= ch2)%N -> (ch = 0xED -> ch2 < 0xA0)%N ->
  utf8_decode_ignore (ch :: ch2 :: ch3 :: s)
  = ((ch - 0xE0) * 4096 + (ch2 - 0x80) * 64 + (ch3 - 0x80))%N :: utf8_decode_ignore s.
Proof.
  intros Hc H2 H3 He0 Hed. cbn [utf8_decode_ignore]. unfold is_continuation.
  destruct (N.ltb_spec ch 0x80); [lia|]. destruct (N.ltb_spec ch 0xC2); [lia|].
  destruct (N.ltb_spec ch 0xE0); [lia|]. destruct (N.ltb_spec ch 0xF0); [|lia].
  destruct (N.leb_spec 0x80 ch2); [|lia]. destruct (N.ltb_spec ch2 0xC0); [|lia].
  destruct (N.leb_spec 0x80 ch3); [|lia]. destruct (N.ltb_spec ch3 0xC0); [|lia].
  cbn [andb negb orb].
  destruct (N.ltb_spec ch2 0xA0).
  - destruct (N.eqb_spec ch 0xE0); [lia|reflexivity].
  - destruct (N.eqb_spec ch 0xED); [lia|reflexivity].
Qed.

Lemma utf8_decode_4 ch ch2 ch3 ch4 s :
  (0xF0 <= ch < 0xF5)%N -> (0x80 <= ch2 < 0xC0)%N -> (0x80 <= ch3 < 0xC0)%N ->
  (0x80 <= ch4 < 0xC0)%N ->
  (ch = 0xF0 -> 0x90 <= ch2)%N -> (ch = 0xF4 -> ch2 < 0x90)%N ->
  utf8_decode_ignore (ch :: ch2 :: ch3 :: ch4 :: s)
  = ((ch - 0xF0) * 262144 + (ch2 - 0x80) * 4096 + (ch3 - 0x80) * 64 + (ch4 - 0x80))%N
    :: utf8_decode_ignore s.
Proof.
  intros Hc H2 H3 H4 Hf0 Hf4. cbn [utf8_decode_ignore]. unfold is_continuation.
  destruct (N.ltb_spec ch 0x80); [lia|]. destruct (N.ltb_spec ch 0xC2); [lia|].
  destruct (N.ltb_spec ch 0xE0); [lia|]. destruct (N.ltb_spec ch 0xF0); [lia|].
  destruct (N.ltb_spec ch 0xF5); [|lia].
  destruct (N.leb_spec 0x80 ch2); [|lia]. destruct (N.ltb_spec ch2 0xC0); [|lia].
  destruct (N.leb_spec 0x80 ch3); [|lia]. destruct (N.ltb_spec ch3 0xC0); [|lia].
  destruct (N.leb_spec 0x80 ch4); [|lia]. destruct (N.ltb_spec ch4 0xC0); [|lia].
  cbn [andb negb orb].
  destruct (N.ltb_spec ch2 0x90).
  - destruct (N.eqb_spec ch 0xF0); [lia|reflexivity].
  - destruct (N.eqb_spec ch 0xF4); [lia|reflexivity].
Qed.

Ltac Zify.zify_post_hook ::= Z.to_euclidean_division_equations.

(** Decoding undoes encoding, one character at a time. *)
Lemma utf8_decode_encode_char c bs rest :
  utf8_encode_char c = Some bs ->
  utf8_decode_ignore (List.map Byte.to_N bs ++ rest) = c :: utf8_decode_ignore rest.
Proof.
  unfold utf8_encode_char.
  destruct (N.ltb_spec c 0x80) as [H1|H1].
  { intros [= <-]. cbn [List.map app]. rewrite byte_of_N_to_N by lia.
    apply utf8_decode_1. exact H1. }
  destruct (N.ltb_spec c 0x800) as [H2|H2].
  { intros [= <-]. cbn [List.map app]. rewrite !byte_of_N_to_N by lia.
    rewrite utf8_decode_2 by lia. f_equal. lia. }
  destruct (N.ltb_spec c 0x10000) as [H3|H3].
  { destruct (N.leb_spec 0xD800 c) as [H4|H4];
      [destruct (N.ltb_spec c 0xE000) as [H5|H5]; [intros [=]|]|];
      cbn [andb]; intros [= <-]; cbn [List.map app]; rewrite !byte_of_N_to_N by lia;
      (rewrite utf8_decode_3 by lia); f_equal; lia. }
  destruct (N.ltb_spec c 0x110000) as [H4|H4]; [|intros [=]].
  intros [= <-]. cbn [List.map app]. rewrite !byte_of_N_to_N by lia.
  rewrite utf8_decode_4 by lia. f_equal. lia.
Qed.

Ltac Zify.zify_post_hook ::= idtac.

Lemma utf8_decode_encode s : forall e,
  utf8_encode s = Some e -> utf8_decode_ignore (List.map Byte.to_N e) = s.
Proof.
  induction s as [|c s IH]; intros e; cbn [utf8_encode].
  - intros [= <-]. reflexivity.
  - destruct (utf8_encode_char c) as [bs|] eqn:Hc; [|intros [=]].
    destruct (utf8_encode s) as [e'|]; [|intros [=]]. intros [= <-].
    rewrite List.map_app, (utf8_decode_encode_char _ _ _ Hc), (IH e' eq_refl). reflexivity.
Qed.

(** * More of the watcher *)

Lemma startswith_spec s prefix :
  startswith s prefix = true <-> exists post, s = prefix ++ post.
Proof.
  revert s. induction prefix as [|a prefix IH]; intros s.
  - split; [intros _; exists s; reflexivity|intros _; destruct s; reflexivity].
  - destruct s as [|b s]; cbn [startswith].
    + split; [intros [=]|intros (post & [=])].
    + rewrite andb_true_iff, N.eqb_eq, IH. split.
      * intros (-> & post & ->). exists post. reflexivity.
      * intros (post & [= -> ->]). split; [reflexivity|exists post; reflexivity].
Qed.

Lemma str_contains_spec s pattern :
  str_contains s pattern = true <-> occurs_in pattern s.
Proof.
  unfold occurs_in. induction s as [|b s IH]; cbn [str_contains].
  - rewrite orb_false_r, startswith_spec. split.
    + intros (post & ->). exists [], post. reflexivity.
    + intros (pre & post & Heq). symmetry in Heq.
      apply app_eq_nil in Heq as (-> & Heq). exists post. exact (eq_sym Heq).
  - rewrite orb_true_iff, startswith_spec, IH. split.
    + intros [(post & ->)|(pre & post & ->)].
      * exists [], post. reflexivity.
      * exists (b :: pre), post. reflexivity.
    + intros (pre & post & Heq). destruct pre as [|b' pre].
      * left. exists post. exact Heq.
      * right. injection Heq as -> ->. exists pre, post. reflexivity.
Qed.

Section WatcherExtras.
Context `{Env}.

(** X10. The deny list of [_should_ignore] is matched as substrings of the
    whole path: a path is ignored exactly when a deny pattern or a
    non-empty extra directory occurs anywhere in it, or the ignore rules
    match it, or its suffix, lowered, is a binary extension. *)
Theorem should_ignore_by_substring (self : Watcher) (p : pystr) :
  _should_ignore self p = true <->
  (exists d, In d EXTRA_IGNORE_DIRS /\ d <> [] /\ occurs_in d p)
  \/ (exists pattern, In pattern ignore_patterns /\ occurs_in pattern p)
  \/ gitignore_matcher self p = true
  \/ In (lower (path_suffix p)) binary_extensions.
Proof.
  unfold _should_ignore, str_in. rewrite !orb_true_iff, !existsb_exists. split.
  - intros [[[(d & Hin & Hd)|(pat & Hin & Hp)]|Hg]|(x & Hin & Hx)].
    + left. apply andb_true_iff in Hd as [Ht Hc]. exists d. split; [exact Hin|].
      split; [destruct d; [discriminate|discriminate]|apply str_contains_spec, Hc].
    + right; left. exists pat. split; [exact Hin|apply str_contains_spec, Hp].
    + right; right; left. exact Hg.
    + right; right; right. apply bool_decide_eq_true_1 in Hx. subst x. exact Hin.
  - intros [(d & Hin & Hd & Ho)|[(pat & Hin & Ho)|[Hg|Hin]]].
    + left; left; left. exists d. split; [exact Hin|]. apply andb_true_iff.
      split; [destruct d; [destruct Hd|]; reflexivity|apply str_contains_spec, Ho].
    + left; left; right. exists pat. split; [exact Hin|apply str_contains_spec, Ho].
    + left; right. exact Hg.
    + right. eexists. split; [exact Hin|]. apply bool_decide_eq_true_2. reflexivity.
Qed.

(** X11. [_get_file_info] cannot fail on the text: a regular file that is not
    ignored, not larger than the limit and under the watch directory
    always gives a record, whatever its bytes, and only such a file does;
    the content of the record has no more characters than the file has
    bytes. *)
Theorem get_file_info_total (fs : FileSystem) (self : Watcher) (filepath : pystr)
    (w : World) :
  (forall data rel,
     fs !! filepath = Some data ->
     _should_ignore self filepath = false ->
     Z.of_nat (length data) <= CACHE_MAX_FILE_SIZE ->
     relative_to filepath (watch_dir self) = Some rel ->
     exists info, _get_file_info fs self filepath w = (Some info, w)
       /\ path info = rel
       /\ content info = read_text data
       /\ language info = detect_language filepath
       /\ Z.of_nat (length (content info)) <= CACHE_MAX_FILE_SIZE)
  /\ (forall info, (_get_file_info fs self filepath w).1 = Some info ->
        exists data, fs !! filepath = Some data
          /\ _should_ignore self filepath = false
          /\ Z.of_nat (length data) <= CACHE_MAX_FILE_SIZE
          /\ relative_to filepath (watch_dir self) = Some (path info)).
Proof.
  split.
  - intros data rel Hd Hi Hsize Hrel.
    destruct (read_text_facts data) as (Hs & _ & Hl).
    destruct (utf8_encode_scalar _ Hs) as (e & He & _).
    unfold _get_file_info. rewrite Hd, Hi.
    destruct (Z.gtb_spec (Z.of_nat (length data)) CACHE_MAX_FILE_SIZE); [lia|].
    cbn zeta. rewrite He, Hrel. eexists. split; [reflexivity|].
    cbn [path content language]. repeat split.
    pose proof (length_le_utf8_size (read_text data)). lia.
  - intros info Hinfo.
    apply _get_file_info_Some in Hinfo as (data & e & Hd & Hi & Hs & _ & Hrel & _).
    exists data. auto.
Qed.

(** X12. The bytes that are hashed read back as the content that is sent: they
    are the UTF-8 of the content, they are no more than the file had, and
    a file rewritten with them gives the same record. *)
Theorem hashed_bytes_read_back (fs : FileSystem) (self : Watcher) (filepath : pystr)
    (w : World) (info : FileInfo) :
  (_get_file_info fs self filepath w).1 = Some info ->
  exists data encoded,
    fs !! filepath = Some data
    /\ utf8_encode (content info) = Some encoded
    /\ hash info = xxh64_hexdigest encoded
    /\ read_text encoded = content info
    /\ (length encoded <= length data)%nat
    /\ (_get_file_info (<[filepath := encoded]> fs) self filepath w).1 = Some info.
Proof.
  intros Hinfo.
  apply _get_file_info_Some in Hinfo
    as (data & e & Hd & Hi & Hsize & He & Hrel & Hc & Hh & Hl & _).
  destruct (read_text_facts data) as (Hs & Hcr & Hlen).
  destruct (utf8_encode_scalar _ Hs) as (e' & He' & Hle').
  rewrite He in He'. injection He' as <-.
  assert (Hback : read_text e = read_text data).
  { unfold read_text at 1. rewrite (utf8_decode_encode _ _ He).
    destruct (translate_newlines_facts _ (read_text data) (Nat.le_refl _)) as (_ & _ & _ & Hid).
    apply Hid, Hcr. }
  exists data, e. rewrite Hc. split; [exact Hd|]. split; [exact He|]. split; [exact Hh|].
  split; [exact Hback|]. split; [lia|].
  unfold _get_file_info. rewrite lookup_insert_eq, Hi.
  destruct (Z.gtb_spec (Z.of_nat (length e)) CACHE_MAX_FILE_SIZE); [lia|].
  cbn zeta. rewrite Hback, He, Hrel. cbn [fst]. f_equal.
  destruct info. cbn [path content hash language] in *. congruence.
Qed.

Lemma eligible_records_cons fs self p rest :
  eligible_records fs self (p :: rest)
  = match (_get_file_info fs self p (mkWorld [] [])).1 with
    | Some info => info :: eligible_records fs self rest
    | None => eligible_records fs self rest
    end.
Proof. reflexivity. Qed.

Lemma eligible_records_state fs self self' rglob :
  watch_dir self' = watch_dir self ->
  gitignore_matcher self' = gitignore_matcher self ->
  eligible_records fs self' rglob = eligible_records fs self rglob.
Proof.
  intros Hd Hg. induction rglob as [|p rest IH]; [reflexivity|].
  rewrite !eligible_records_cons, IH.
  rewrite (_get_file_info_state fs self self' p (mkWorld [] []) (mkWorld [] []) Hd Hg).
  reflexivity.
Qed.

(** X13. The initial scan goes around the queue: it indexes the records of the
    eligible paths, in order, and hands exactly those to [cache_file], in
    order; it leaves the queue as it is, never enters [add_to_queue] nor
    [process_queue], and sends at most one request per eligible file. *)
Theorem initial_scan_bypasses_queue (fs : FileSystem) (rglob : list pystr)
    (self : Watcher) (w : World) :
  let records := eligible_records fs self rglob in
  let self' := (_initial_scan fs rglob self w).1 in
  let w' := (_initial_scan fs rglob self w).2 in
  file_hashes self' = index_records records (file_hashes self)
  /\ primed w' = primed w ++ records
  /\ cache_queue (cache_manager self') = cache_queue (cache_manager self)
  /\ enqueued w' = enqueued w
  /\ flushes w' = flushes w
  /\ (length (posts w') <= length (posts w) + length records)%nat.
Proof.
  cbn zeta. revert self w. induction rglob as [|p rest IH]; intros self w.
  - cbn [_initial_scan eligible_records omap index_records fold_left fst snd length].
    rewrite app_nil_r. repeat split. lia.
  - cbn [_initial_scan]. unfold scan_one. rewrite eligible_records_cons.
    rewrite (_get_file_info_state fs self self p w (mkWorld [] []) eq_refl eq_refl).
    pose proof (_get_file_info_world fs self p w) as Hw.
    destruct (_get_file_info fs self p w) as [[info|] w1] eqn:Hg; cbn [fst snd] in *.
    + destruct Hw as [->|(lg & [=])].
      cbn [cache_manager set_file_hashes].
      pose proof (cache_file_frame info (cache_manager self) w) as Hf.
      pose proof (cache_file_posts_bound info (cache_manager self) w) as Hb.
      destruct (cache_file info (cache_manager self) w) as [c w2]. cbn [fst snd] in *.
      destruct Hf as (Hq & _ & _ & _ & Hc).
      match goal with
      | |- context [_initial_scan fs rest ?s w2] =>
          specialize (IH s w2);
          rewrite (eligible_records_state fs self s rest eq_refl eq_refl) in IH
      end.
      destruct IH as (I1 & I2 & I3 & I4 & I5 & I6).
      rewrite I1, I2, I3, I4, I5. cbn [file_hashes cache_manager set_cache_manager
        set_file_hashes index_records fold_left length].
      unfold primed, enqueued, flushes. rewrite Hc, !omap_app, List.filter_app, length_app.
      cbn [omap List.filter is_flush length]. rewrite <- !app_assoc, app_nil_r, Nat.add_0_r.
      repeat split; [exact Hq|lia].
    + destruct Hw as [->|(lg & [= ->])].
      * specialize (IH self w). destruct IH as (I1 & I2 & I3 & I4 & I5 & I6).
        rewrite I1, I2, I3, I4, I5. repeat split. exact I6.
      * specialize (IH self (emit (Log lg) w)). destruct IH as (I1 & I2 & I3 & I4 & I5 & I6).
        rewrite I1, I2, I3, I4, I5. rewrite posts_emit_log in I6. repeat split. exact I6.
Qed.

(** X14. A modify event that follows the create event of the same file, the
    file being as it was, is dropped: watchdog's pair of events for a new
    file enqueues it once. *)
Theorem modified_after_created_is_dropped (fs : FileSystem) (created modified : FileSystemEvent)
    (self : Watcher) (w : World) (info : FileInfo) :
  is_directory created = false ->
  is_directory modified = false ->
  src_path modified = src_path created ->
  (_get_file_info fs self (src_path created) w).1 = Some info ->
  on_modified fs modified (on_created fs created self w).1 (on_created fs created self w).2
  = on_created fs created self w
  /\ enqueued (on_created fs created self w).2 = enqueued w ++ [info].
Proof.
  intros Hc Hm Hsrc Hinfo.
  rewrite (on_created_eligible _ _ _ _ _ Hc Hinfo).
  pose proof (add_to_queue_enqueued info (cache_manager self)
                (emit (Log (LogCreated (path info))) w)) as Henq.
  destruct (add_to_queue _ _ _) as [c w1]. cbn [fst snd] in *.
  split; [|exact Henq].
  set (self1 := mkWatcher _ _ _ _).
  pose proof (_get_file_info_state fs self self1 (src_path created) w w1 eq_refl eq_refl)
    as Hst.
  rewrite Hinfo in Hst.
  apply _get_file_info_Some in Hst as (_ & _ & _ & _ & _ & _ & _ & _ & _ & _ & Hrun).
  unfold on_modified. rewrite Hm, Hsrc, Hrun.
  rewrite bool_decide_eq_false_2; [reflexivity|].
  subst self1. cbn [file_hashes]. rewrite lookup_insert_eq. intros Hne. exact (Hne eq_refl).
Qed.

(** X15. A delete event for a path that is not indexed changes nothing, the
    cached map included; so a second delete event for the same path is
    dropped. *)
Theorem on_deleted_untracked (event : FileSystemEvent) (self : Watcher) (w : World)
    (p : pystr) :
  is_directory event = false ->
  relative_to (src_path event) (watch_dir self) = Some p ->
  (file_hashes self !! p = None -> on_deleted event self w = Some (self, w))
  /\ (forall self1 w1, on_deleted event self w = Some (self1, w1) ->
        on_deleted event self1 w1 = Some (self1, w1)).
Proof.
  intros Hdir Hrel. split.
  - intros Hn. unfold on_deleted. rewrite Hdir, Hrel, Hn. reflexivity.
  - intros self1 w1. unfold on_deleted. rewrite Hdir, Hrel.
    destruct (file_hashes self !! p) eqn:Hl.
    + intros Heq. injection Heq as Hs Hw. subst self1 w1.
      cbn [watch_dir set_cache_manager set_file_hashes file_hashes].
      rewrite ?Hrel, lookup_delete_eq. reflexivity.
    + intros Heq. injection Heq as Hs Hw. subst self1 w1. rewrite Hrel, Hl. reflexivity.
Qed.

(** Events about directories are dropped by every handler. *)
Lemma directory_events_ignored (fs : FileSystem) (event : FileSystemEvent)
    (self : Watcher) (w : World) :
  is_directory event = true ->
  dispatch fs event self w = Some (self, w).
Proof.
  intros Hdir. unfold dispatch, on_created, on_modified, on_deleted, on_moved.
  rewrite Hdir. destruct (event_type event); reflexivity.
Qed.

Lemma cache_file_effects_grow r c w :
  exists k, effects (cache_file r c w).2 = effects w ++ k.
Proof.
  unfold cache_file, send_priming.
  repeat case_match; cbn [snd effects emit enter]; rewrite <- ?app_assoc;
    first [eexists; reflexivity | exists []; rewrite app_nil_r; reflexivity].
Qed.

Lemma prime_all_effects_grow rs : forall c w,
  exists k, effects (prime_all rs c w).2 = effects w ++ k.
Proof.
  induction rs as [|r rs IH]; intros c w.
  - exists []. rewrite app_nil_r. reflexivity.
  - rewrite prime_all_cons.
    destruct (IH (cache_file r c w).1 (cache_file r c w).2) as [k2 Hk2].
    destruct (cache_file_effects_grow r c w) as [k1 Hk1].
    exists (k1 ++ k2). rewrite Hk2, Hk1, app_assoc. reflexivity.
Qed.

(** X16. Deleting a file does not take it out of the queue: a record of the
    deleted path that is at the head of the queue is still handed to
    [cache_file] by the next flush, and, a model being known and the
    record within the budget, a request is sent for the deleted file. *)
Theorem deleted_file_still_primed (fs : FileSystem) (event : FileSystemEvent)
    (self : Watcher) (w : World) (r : FileInfo) (rest : list FileInfo) (m old : pystr) :
  1 <= CACHE_BATCH_SIZE ->
  is_directory event = false ->
  event_type event = Deleted ->
  relative_to (src_path event) (watch_dir self) = Some (path r) ->
  file_hashes self !! path r = Some old ->
  cache_queue (cache_manager self) = r :: rest ->
  model_id (cache_manager self) = Some m ->
  str_truthy m = true ->
  total_tokens r <= token_budget (cache_manager self) ->
  exists self' w',
    run_actions [Deliver fs event; TimerFires] self w = Some (self', w')
    /\ file_hashes self' !! path r = None
    /\ (exists k, primed w' = primed w ++ r :: k)
    /\ was_posted (cache_manager self) w' r.
Proof.
  intros Hb Hdir Hty Hrel Htr Hq Hm Ht Hle.
  cbn [run_actions act]. unfold dispatch. rewrite Hty. unfold on_deleted.
  rewrite Hdir, Hrel, Htr. cbn [cache_manager set_file_hashes set_cache_manager].
  set (c' := match cached_files (cache_manager self) !! path r with
             | Some _ => _ | None => _ end).
  assert (Hc' : cached_files c' !! path r = None /\ cache_queue c' = r :: rest
                /\ model_id c' = Some m /\ token_budget c' = token_budget (cache_manager self)
                /\ priming_url c' = priming_url (cache_manager self)).
  { subst c'. destruct (cached_files (cache_manager self) !! path r) eqn:Hl.
    - cbn [cached_files set_cached_files]. rewrite lookup_delete_eq. auto.
    - auto. }
  destruct Hc' as (Hnone & Hq' & Hm' & Hbud & Hurl).
  set (w1 := emit (Log (LogDeleted (path r))) w).
  rewrite process_queue_prime_all, Hq'.
  destruct (Z.to_nat CACHE_BATCH_SIZE) as [|n] eqn:Hn; [lia|].
  rewrite firstn_cons, skipn_cons, prime_all_cons.
  assert (Ha : admitted (set_cache_queue (drop n rest) c') r = Some m).
  { apply admitted_Some. repeat split; try assumption.
    - unfold already_cached. apply bool_decide_eq_false_2.
      cbn [cached_files set_cache_queue]. rewrite Hnone. discriminate.
    - unfold token_budget in *. cbn [max_model_len set_cache_queue]. lia. }
  rewrite (cache_file_admitted _ _ _ _ Ha).
  set (st := send_priming m r _ _).
  assert (Hst : (exists k, effects st.2 = effects w ++ k
                   /\ In (HttpPost (priming_url (cache_manager self)) (priming_payload m r)) k)
                /\ primed st.2 = primed w ++ [r]).
  { subst st. unfold send_priming.
    replace (priming_url (set_cache_queue (drop n rest) c'))
      with (priming_url (cache_manager self)) by (rewrite <- Hurl; reflexivity).
    destruct (http_post _ _ _) as [code|]; [destruct (code =? 200)|]; cbn [fst snd];
      (split; [eexists; split;
                 [subst w1; cbn [effects emit enter]; rewrite <- !app_assoc; reflexivity
                 |cbn [app In]; auto]
              |rewrite primed_emit, primed_emit, primed_enter_cache, primed_enter_other
                 by discriminate; subst w1; rewrite primed_emit; reflexivity]). }
  destruct Hst as ((k & Hk & Hin) & Hpr).
  destruct (prime_all (take n rest) st.1 st.2) as [c2 w2] eqn:Hrun.
  eexists _, _. split; [reflexivity|]. cbn [file_hashes set_cache_manager].
  split; [apply lookup_delete_eq|].
  destruct (prime_all_frame (take n rest) st.1 st.2) as (_ & Hp2 & _).
  rewrite Hrun in Hp2. cbn [snd] in Hp2.
  split.
  - exists (take n rest). rewrite Hp2, Hpr, <- app_assoc. reflexivity.
  - exists m.
    pose proof (prime_all_effects_grow (take n rest) st.1 st.2) as Hgrow.
    rewrite Hrun in Hgrow. cbn [snd] in Hgrow.
    destruct Hgrow as [k2 Hk2]. rewrite Hk2, Hk, !in_app_iff. auto.
Qed.

End WatcherExtras.

(** * The first watcher, the threads, the start-up and the file context *)

Section BasicExtras.
Context `{Env}.

Lemma basic_set_file_hashes_id (self : Basic.Watcher) :
  Basic.set_file_hashes (Basic.file_hashes self) self = self.
Proof. destruct self. reflexivity. Qed.

Lemma updates_emit_log lg w : updates (emit (Log lg) w) = updates w.
Proof. unfold updates. cbn [effects emit]. rewrite omap_app. apply app_nil_r. Qed.

(** [_update_cache] sends one update, whatever the answer. *)
Lemma updates_update_cache files operation w :
  updates (Basic._update_cache files operation w) = updates w ++ [(operation, files)].
Proof.
  unfold Basic._update_cache.
  destruct (lmcache_post _ _ _) as [code|]; [destruct (code =? 200)|];
    rewrite updates_emit_log; unfold updates; cbn [effects emit];
    rewrite omap_app; reflexivity.
Qed.

(** X17. First watcher: when the destination of a move cannot be hashed (it is
    ignored, too large or not a regular file), the old path leaves the
    index, the new one does not enter it, and no update is sent to
    LMCache. *)
Theorem basic_on_moved_unhashable_destination (fs : FileSystem) (event : FileSystemEvent)
    (self : Basic.Watcher) (w : World) (src_rel dst_rel : pystr) :
  is_directory event = false ->
  relative_to (src_path event) (Basic.watch_dir self) = Some src_rel ->
  relative_to (dest_path event) (Basic.watch_dir self) = Some dst_rel ->
  Basic._hash_file fs self (dest_path event) = None ->
  exists self' w',
    Basic.on_moved fs event self w = Some (self', w')
    /\ Basic.file_hashes self' = delete src_rel (Basic.file_hashes self)
    /\ updates w' = updates w.
Proof.
  intros Hdir Hsrc Hdst Hhash. unfold Basic.on_moved. rewrite Hdir, Hsrc, Hdst.
  assert (Hh : forall m, Basic._hash_file fs (Basic.set_file_hashes m self) (dest_path event)
                         = Basic._hash_file fs self (dest_path event)) by reflexivity.
  destruct (Basic.file_hashes self !! src_rel) eqn:Hl.
  - rewrite Hh, Hhash. eexists _, _. split; [reflexivity|]. split; reflexivity.
  - rewrite Hhash. eexists _, _. split; [reflexivity|].
    split; [symmetry; apply delete_id; exact Hl|reflexivity].
Qed.

(** X18. First watcher: a modify event that follows the create event of the
    same file, the file being as it was, leaves the index as it is and
    sends no update. *)
Theorem basic_modified_after_created_is_dropped (fs : FileSystem)
    (created modified : FileSystemEvent) (self self1 : Basic.Watcher) (w w1 : World) :
  is_directory created = false ->
  is_directory modified = false ->
  src_path modified = src_path created ->
  BasicHandlers.on_created fs created self w = Some (self1, w1) ->
  exists w2,
    BasicHandlers.on_modified fs modified self1 w1 = Some (self1, w2)
    /\ updates w2 = updates w1.
Proof.
  intros Hc Hm Hsrc. unfold BasicHandlers.on_created, BasicHandlers.on_modified.
  rewrite Hc, Hm, Hsrc.
  assert (Hh : forall m, Basic._hash_file fs (Basic.set_file_hashes m self) (src_path created)
                         = Basic._hash_file fs self (src_path created)) by reflexivity.
  destruct (Basic._hash_file fs self (src_path created)) as [h|] eqn:Hhash.
  - destruct (str_truthy h) eqn:Ht.
    + destruct (relative_to (src_path created) (Basic.watch_dir self)) as [rel|] eqn:Hrel;
        [|intros [=]].
      intros Heq. injection Heq as Hs Hw. subst self1 w1.
      rewrite Hh, Ht. cbn [Basic.watch_dir Basic.set_file_hashes Basic.file_hashes].
      rewrite Hrel, lookup_insert_eq.
      rewrite bool_decide_eq_false_2; [eexists; split; reflexivity|].
      intros Hne. exact (Hne eq_refl).
    + intros Heq. injection Heq as Hs Hw. subst self1 w1. rewrite Hhash, Ht.
      eexists; split; reflexivity.
  - intros Heq. injection Heq as Hs Hw. subst self1 w1. rewrite Hhash.
    eexists; split; reflexivity.
Qed.

(** X19. First watcher: creating a file that was not indexed and then deleting
    it gives back the watcher as it was; LMCache is sent one [create] and
    one [delete] update for the path, in this order, whatever it answers. *)
Theorem basic_created_then_deleted (fs : FileSystem) (created deleted : FileSystemEvent)
    (self : Basic.Watcher) (w : World) (rel h : pystr) :
  is_directory created = false ->
  is_directory deleted = false ->
  src_path deleted = src_path created ->
  relative_to (src_path created) (Basic.watch_dir self) = Some rel ->
  Basic._hash_file fs self (src_path created) = Some h ->
  str_truthy h = true ->
  Basic.file_hashes self !! rel = None ->
  exists self1 w1 w2,
    BasicHandlers.on_created fs created self w = Some (self1, w1)
    /\ Basic.file_hashes self1 !! rel = Some h
    /\ BasicHandlers.on_deleted deleted self1 w1 = Some (self, w2)
    /\ updates w2 = updates w ++ [(lit "create", [rel]); (lit "delete", [rel])].
Proof.
  intros Hc Hd Hsrc Hrel Hhash Ht Hnone.
  set (self1 := Basic.set_file_hashes (<[rel := h]> (Basic.file_hashes self)) self).
  set (w1 := Basic._update_cache [rel] (lit "create") (emit (Log (LogCreated rel)) w)).
  set (w2 := Basic._update_cache [rel] (lit "delete") (emit (Log (LogDeleted rel)) w1)).
  exists self1, w1, w2.
  assert (Hcreated : BasicHandlers.on_created fs created self w = Some (self1, w1)).
  { unfold BasicHandlers.on_created. rewrite Hc, Hhash, Ht, Hrel. reflexivity. }
  assert (Hlook : Basic.file_hashes self1 !! rel = Some h) by apply lookup_insert_eq.
  split; [exact Hcreated|]. split; [exact Hlook|]. split.
  - unfold BasicHandlers.on_deleted. rewrite Hd, Hsrc.
    change (Basic.watch_dir self1) with (Basic.watch_dir self). rewrite Hrel, Hlook.
    do 2 f_equal. subst self1. cbn [Basic.set_file_hashes Basic.file_hashes Basic.watch_dir
      Basic.gitignore_matcher].
    rewrite delete_insert_eq, delete_id by exact Hnone. destruct self. reflexivity.
  - subst w2 w1.
    rewrite updates_update_cache, updates_emit_log, updates_update_cache, updates_emit_log.
    rewrite <- app_assoc. reflexivity.
Qed.

End BasicExtras.

Section ThreadExtras.
Context `{Env}.

Lemma alone_keeps_alive t sh t' sh' :
  alone (t, sh) (t', sh') ->
  pc t <> Dead /\ (forall p, pc t = FlushPop p -> cache_queue (mgr sh) <> []) ->
  pc t' <> Dead /\ (forall p, pc t' = FlushPop p -> cache_queue (mgr sh') <> []).
Proof.
  unfold alone, thread_step. cbn [fst snd]. intros Hs [Hd Hq].
  repeat case_match; simplify_eq; cbn [pc mgr];
    try (split; [discriminate|intros ? [=]]; fail).
  - split; [discriminate|]. intros p _. rewrite H1. discriminate.
  - exfalso. eapply Hq; reflexivity.
Qed.

(** X20. Without the other thread [popleft] never finds the queue empty: a
    thread that runs alone, started between two calls, never dies. *)
Theorem thread_alone_never_dies (t t' : Thread) (sh sh' : Shared) :
  pc t = Idle ->
  rtc alone (t, sh) (t', sh') ->
  pc t' <> Dead.
Proof.
  intros Hidle Hrun.
  assert (Hinv : pc t <> Dead
                 /\ (forall p, pc t = FlushPop p -> cache_queue (mgr sh) <> []))
    by (rewrite Hidle; split; [discriminate|intros ? [=]]).
  clear Hidle.
  remember (t, sh) as a eqn:Ha. remember (t', sh') as b eqn:Hb.
  revert t sh Ha Hinv. induction Hrun as [a|a [t1 sh1] b Hstep _ IH]; intros t sh Ha Hinv.
  - subst a. injection Ha as -> ->. exact (proj1 Hinv).
  - subst a. apply (IH Hb t1 sh1 eq_refl). exact (alone_keeps_alive _ _ _ _ Hstep Hinv).
Qed.

(** X21. With the other thread it can: when the handler and the timer are both
    at their [popleft] and one entry is queued, the one that pops second
    dies, whichever it is. *)
Theorem second_pop_dies (s : Sys) (p1 p2 : Z) (r : FileInfo) :
  pc (event_thread s) = FlushPop p1 ->
  pc (timer_thread s) = FlushPop p2 ->
  cache_queue (mgr (shared s)) = [r] ->
  (exists s', rtc step s s' /\ pc (timer_thread s') = Dead
              /\ pc (event_thread s') = FlushPrime p1 r)
  /\ (exists s', rtc step s s' /\ pc (event_thread s') = Dead
                 /\ pc (timer_thread s') = FlushPrime p2 r).
Proof.
  intros He Ht Hq. split.
  - eexists. split.
    + eapply rtc_l.
      { apply step_event. unfold thread_step. rewrite He, Hq. reflexivity. }
      apply rtc_once. apply step_timer. unfold thread_step.
      cbn [timer_thread shared mgr cache_queue set_cache_queue]. rewrite Ht. reflexivity.
    + split; reflexivity.
  - eexists. split.
    + eapply rtc_l.
      { apply step_timer. unfold thread_step. rewrite Ht, Hq. reflexivity. }
      apply rtc_once. apply step_event. unfold thread_step.
      cbn [event_thread shared mgr cache_queue set_cache_queue]. rewrite He. reflexivity.
    + split; reflexivity.
Qed.

End ThreadExtras.

Section StartupExtras.
Context `{Env}.

Lemma init_state endpoint response :
  let c := (CacheManager__init__ endpoint response).1 in
  cache_queue c = [] /\ cached_files c = ∅ /\ vllm_endpoint c = endpoint.
Proof.
  unfold CacheManager__init__, _get_model_info.
  repeat case_match; repeat split.
Qed.

(** X22. When the model query at start-up does not name a model (the request
    raises, the status is not 200, the body is malformed or lists no
    model, or the first entry has no identifier or an empty one), the
    manager keeps the default context length of 8192 and no priming request
    is ever sent: not by the initial scan, nor by any later event or
    flush. *)
Theorem failed_model_query_never_posts (endpoint : pystr) (response : ModelsOutcome)
    (watch : pystr) (matcher : pystr -> bool) (fs : FileSystem) (rglob : list pystr)
    (l : list Action) (self' : Watcher) (w w' : World) :
  (forall md rest m, response = ModelsResponded 200 (Some (md :: rest)) ->
                     md_id md = Some m -> m = []) ->
  let c := (CacheManager__init__ endpoint response).1 in
  let self := mkWatcher watch c ∅ matcher in
  (no_model c /\ (model_id c = None -> max_model_len c = 8192))
  /\ (run_actions l (_initial_scan fs rglob self w).1 (_initial_scan fs rglob self w).2
        = Some (self', w') ->
      posts w' = posts w).
Proof.
  intros Hbad c self.
  assert (Hnm : no_model c /\ (model_id c = None -> max_model_len c = 8192)).
  { subst c. unfold CacheManager__init__, _get_model_info.
    destruct response as [code body|]; [|split; [left|]; reflexivity].
    destruct (Z.eqb_spec code 200) as [->|Hne]; [|split; [left|]; reflexivity].
    destruct body as [[|md rest]|]; try (split; [left|]; reflexivity).
    destruct (md_id md) as [m|] eqn:Hid; [|split; [left|]; reflexivity].
    rewrite (Hbad md rest m eq_refl Hid). split; [right; reflexivity|intros [=]]. }
  split; [exact Hnm|]. intros Hrun.
  exact (proj1 (no_model_run fs rglob l self self' w w' (proj1 Hnm) Hrun)).
Qed.

Lemma slice_to_length n (s : pystr) :
  Z.of_nat (length (slice_to n s))
  = if 0 <=? n then Z.min n (Z.of_nat (length s))
    else Z.max 0 (Z.of_nat (length s) + n).
Proof.
  unfold slice_to. destruct (Z.leb_spec 0 n); rewrite length_take; lia.
Qed.

Lemma create_file_context_app files : forall header,
  fold_left (fun context file_info => context ++ file_context_entry file_info) files header
  = header ++ concat (List.map file_context_entry files).
Proof.
  induction files as [|f files IH]; intros header; cbn [fold_left List.map concat].
  - rewrite app_nil_r. reflexivity.
  - rewrite IH, <- app_assoc. reflexivity.
Qed.

(** X23. [_create_file_context] is the header followed by one entry per file,
    in order; an entry is 25 characters of framing, the path, the language
    tag and the content cut by [content[:CACHE_MAX_FILE_SIZE]]: at most
    [CACHE_MAX_FILE_SIZE] characters of it when the limit is not negative,
    and all but the last [-CACHE_MAX_FILE_SIZE] when it is. *)
Theorem create_file_context_shape (files more : list FileInfo) (f : FileInfo) :
  _create_file_context (files ++ more)
  = _create_file_context files ++ concat (List.map file_context_entry more)
  /\ _create_file_context [] = context_header
  /\ Z.of_nat (length (file_context_entry f))
     = 25 + Z.of_nat (length (path f)) + Z.of_nat (length (language f))
       + (if 0 <=? CACHE_MAX_FILE_SIZE
          then Z.min CACHE_MAX_FILE_SIZE (Z.of_nat (length (content f)))
          else Z.max 0 (Z.of_nat (length (content f)) + CACHE_MAX_FILE_SIZE)).
Proof.
  split; [|split; [reflexivity|]].
  - unfold _create_file_context.
    rewrite !create_file_context_app, List.map_app, concat_app, app_assoc. reflexivity.
  - rewrite <- slice_to_length. unfold file_context_entry.
    rewrite !length_app.
    replace (length (lit "=== File: ")) with 10%nat by reflexivity.
    replace (length (lit " ===")) with 4%nat by reflexivity.
    replace (length (lit "```")) with 3%nat by reflexivity.
    cbn [length]. lia.
Qed.

End StartupExtras.

(** * Deletion and re-creation *)

Section DeletedRecreated.
Context `{Env}.

















End DeletedRecreated.

(** * The further properties at concrete inputs *)

Lemma admission_threshold_in_characters_witness :
  total_tokens record_a = 113
  /\ (@cache_file env_ok record_a (sample_manager 300) empty_world).1 = sample_manager 300
  /\ posts (@cache_file env_ok record_a (sample_manager 300) empty_world).2 = [].
Proof.
  destruct (@admission_threshold_in_characters env_ok record_a (sample_manager 300)
              empty_world) as (Hform & _ & Hover).
  split; [rewrite Hform; reflexivity|].
  exact (Hover ltac:(vm_compute; reflexivity)).
Defined.

Lemma cache_file_idempotent_after_success_witness :
  @cache_file env_ok record_a
     (@cache_file env_ok record_a (sample_manager 8192) empty_world).1
     (@cache_file env_ok record_a (sample_manager 8192) empty_world).2
  = ((@cache_file env_ok record_a (sample_manager 8192) empty_world).1,
     enter (CallCacheFile record_a)
           (@cache_file env_ok record_a (sample_manager 8192) empty_world).2).
Proof.
  exact (@cache_file_idempotent_after_success env_ok record_a record_a
           (sample_manager 8192) empty_world (lit "qwen") eq_refl eq_refl eq_refl eq_refl).
Defined.

Lemma process_queue_request_bound_witness :
  posts (@add_to_queue env_batch2 record_a (sample_manager 8192) empty_world).2 = [].
Proof.
  exact (proj2 (proj2 (@process_queue_request_bound env_batch2 (sample_manager 8192)
                         empty_world record_a)) ltac:(vm_compute; reflexivity)).
Defined.

Lemma nonpositive_batch_size_never_primes_witness :
  @process_queue env_batch0 (set_cache_queue [record_a] (sample_manager 8192)) empty_world
  = (set_cache_queue [record_a] (sample_manager 8192), enter CallProcessQueue empty_world).
Proof.
  exact (proj1 (@nonpositive_batch_size_never_primes env_batch0
                  (set_cache_queue [record_a] (sample_manager 8192)) empty_world record_b
                  ltac:(vm_compute; discriminate))).
Defined.

Lemma flush_times_drains_witness :
  cache_queue (@flush_times env_batch2 2
                 (set_cache_queue [record_a; record_b; info_a] (sample_manager 8192))
                 empty_world).1 = [].
Proof.
  destruct (@flush_times_drains env_batch2 2
              (set_cache_queue [record_a; record_b; info_a] (sample_manager 8192))
              empty_world) as (_ & _ & _ & Hdrain).
  exact (Hdrain ltac:(vm_compute; lia)).
Defined.

Lemma settings_never_change_witness :
  exists self' w',
    @run_actions env_batch2 sample_actions
      (@_initial_scan env_batch2 sample_fs [path_a] new_watcher empty_world).1
      (@_initial_scan env_batch2 sample_fs [path_a] new_watcher empty_world).2
    = Some (self', w')
    /\ same_settings (cache_manager new_watcher) (cache_manager self').
Proof.
  destruct (@run_actions env_batch2 sample_actions
              (@_initial_scan env_batch2 sample_fs [path_a] new_watcher empty_world).1
              (@_initial_scan env_batch2 sample_fs [path_a] new_watcher empty_world).2)
    as [[self' w']|] eqn:Hrun; [|vm_compute in Hrun; discriminate].
  exists self', w'. split; [reflexivity|].
  exact (proj1 (@settings_never_change env_batch2 sample_fs [path_a] sample_actions
                  new_watcher self' empty_world w' Hrun)).
Defined.

Lemma no_model_never_posts_witness :
  exists self' w',
    @run_actions env_batch2 sample_actions
      (@_initial_scan env_batch2 sample_fs [path_a] new_watcher_no_model empty_world).1
      (@_initial_scan env_batch2 sample_fs [path_a] new_watcher_no_model empty_world).2
    = Some (self', w')
    /\ posts w' = [].
Proof.
  destruct (@run_actions env_batch2 sample_actions
              (@_initial_scan env_batch2 sample_fs [path_a] new_watcher_no_model empty_world).1
              (@_initial_scan env_batch2 sample_fs [path_a] new_watcher_no_model empty_world).2)
    as [[self' w']|] eqn:Hrun; [|vm_compute in Hrun; discriminate].
  exists self', w'. split; [reflexivity|].
  exact (proj1 (@no_model_never_posts env_batch2 sample_fs [path_a] sample_actions
                  new_watcher_no_model self' empty_world w' (or_introl eq_refl) Hrun)).
Defined.

Lemma queue_stays_below_batch_size_witness :
  exists self' w',
    @run_actions env_batch2 sample_actions new_watcher empty_world = Some (self', w')
    /\ Z.of_nat (length (cache_queue (cache_manager self'))) < 2.
Proof.
  destruct (@run_actions env_batch2 sample_actions new_watcher empty_world)
    as [[self' w']|] eqn:Hrun; [|vm_compute in Hrun; discriminate].
  exists self', w'. split; [reflexivity|].
  exact (@queue_stays_below_batch_size env_batch2 sample_actions new_watcher self'
           empty_world w' ltac:(vm_compute; discriminate) ltac:(vm_compute; reflexivity) Hrun).
Defined.


Lemma should_ignore_by_substring_witness :
  @_should_ignore env_ok new_watcher (lit "/workspace/.github/ci.yml") = true.
Proof.
  apply (proj2 (@should_ignore_by_substring env_ok new_watcher
                  (lit "/workspace/.github/ci.yml"))).
  right; left. exists (lit ".git"). split; [left; reflexivity|].
  exists (lit "/workspace/"), (lit "hub/ci.yml"). reflexivity.
Defined.

Lemma get_file_info_total_witness :
  exists info, @_get_file_info env_ok sample_fs new_watcher path_a empty_world
               = (Some info, empty_world)
    /\ path info = lit "a.py"
    /\ content info = read_text bytes_a.
Proof.
  destruct (proj1 (@get_file_info_total env_ok sample_fs new_watcher path_a empty_world)
              bytes_a (lit "a.py") ltac:(vm_compute; reflexivity) ltac:(vm_compute; reflexivity)
              ltac:(vm_compute; discriminate) ltac:(vm_compute; reflexivity))
    as (info & Hrun & Hp & Hc & _).
  exists info. auto.
Defined.

Lemma hashed_bytes_read_back_witness :
  exists data encoded,
    sample_fs !! path_a = Some data
    /\ utf8_encode (content info_a) = Some encoded
    /\ hash info_a = @xxh64_hexdigest env_ok encoded
    /\ read_text encoded = content info_a
    /\ (length encoded <= length data)%nat
    /\ (@_get_file_info env_ok (<[path_a := encoded]> sample_fs) new_watcher path_a
          empty_world).1 = Some info_a.
Proof.
  exact (@hashed_bytes_read_back env_ok sample_fs new_watcher path_a empty_world info_a
           ltac:(vm_compute; reflexivity)).
Defined.

Lemma modified_after_created_is_dropped_witness :
  @on_modified env_ok sample_fs modify_a
     (@on_created env_ok sample_fs create_a new_watcher empty_world).1
     (@on_created env_ok sample_fs create_a new_watcher empty_world).2
  = @on_created env_ok sample_fs create_a new_watcher empty_world
  /\ enqueued (@on_created env_ok sample_fs create_a new_watcher empty_world).2
     = enqueued empty_world ++ [info_a].
Proof.
  exact (@modified_after_created_is_dropped env_ok sample_fs create_a modify_a new_watcher
           empty_world info_a eq_refl eq_refl eq_refl ltac:(vm_compute; reflexivity)).
Defined.

Lemma on_deleted_untracked_witness :
  on_deleted delete_a new_watcher empty_world = Some (new_watcher, empty_world).
Proof.
  exact (proj1 (on_deleted_untracked delete_a new_watcher empty_world (lit "a.py")
                  eq_refl eq_refl) eq_refl).
Defined.

Lemma deleted_file_still_primed_witness :
  exists self' w',
    @run_actions env_batch2 [Deliver ∅ delete_a; TimerFires] watcher_with_queued_a empty_world
    = Some (self', w')
    /\ file_hashes self' !! path info_a = None
    /\ (exists k, primed w' = primed empty_world ++ info_a :: k)
    /\ was_posted (cache_manager watcher_with_queued_a) w' info_a.
Proof.
  exact (@deleted_file_still_primed env_batch2 ∅ delete_a watcher_with_queued_a empty_world
           info_a [] (lit "qwen") (lit "a")
           ltac:(vm_compute; discriminate) eq_refl eq_refl eq_refl
           ltac:(vm_compute; reflexivity) eq_refl eq_refl eq_refl
           ltac:(vm_compute; discriminate)).
Defined.

Lemma basic_on_moved_unhashable_destination_witness :
  exists self' w',
    @Basic.on_moved env_ok sample_fs move_a_to_b basic_watcher empty_world = Some (self', w')
    /\ Basic.file_hashes self' = delete (lit "a.py") (Basic.file_hashes basic_watcher)
    /\ updates w' = updates empty_world.
Proof.
  exact (@basic_on_moved_unhashable_destination env_ok sample_fs move_a_to_b basic_watcher
           empty_world (lit "a.py") (lit "b.py") eq_refl eq_refl eq_refl
           ltac:(vm_compute; reflexivity)).
Defined.

Lemma basic_modified_after_created_is_dropped_witness :
  exists self1 w1 w2,
    @BasicHandlers.on_created env_ok sample_fs create_a basic_watcher empty_world
    = Some (self1, w1)
    /\ @BasicHandlers.on_modified env_ok sample_fs modify_a self1 w1 = Some (self1, w2)
    /\ updates w2 = updates w1.
Proof.
  destruct (@BasicHandlers.on_created env_ok sample_fs create_a basic_watcher empty_world)
    as [[self1 w1]|] eqn:Hrun; [|vm_compute in Hrun; discriminate].
  destruct (@basic_modified_after_created_is_dropped env_ok sample_fs create_a modify_a
              basic_watcher self1 empty_world w1 eq_refl eq_refl eq_refl Hrun)
    as (w2 & Hmod & Hup).
  exists self1, w1, w2. split; [reflexivity|]. split; assumption.
Defined.

Lemma basic_created_then_deleted_witness :
  exists self1 w1 w2,
    @BasicHandlers.on_created env_ok sample_fs create_a new_basic_watcher empty_world
    = Some (self1, w1)
    /\ Basic.file_hashes self1 !! lit "a.py" = Some (@xxh64_hexdigest env_ok bytes_a)
    /\ @BasicHandlers.on_deleted env_ok delete_a self1 w1 = Some (new_basic_watcher, w2)
    /\ updates w2
       = updates empty_world
         ++ [(lit "create", [lit "a.py"]); (lit "delete", [lit "a.py"])].
Proof.
  exact (@basic_created_then_deleted env_ok sample_fs create_a delete_a new_basic_watcher
           empty_world (lit "a.py") (@xxh64_hexdigest env_ok bytes_a)
           eq_refl eq_refl eq_refl eq_refl ltac:(vm_compute; reflexivity)
           ltac:(vm_compute; reflexivity) eq_refl).
Defined.

Lemma thread_alone_never_dies_witness :
  exists t' sh',
    rtc (@alone env_batch2) (periodic_cache_flush 1, shared sample_sys) (t', sh')
    /\ pc t' = FlushPop 0
    /\ pc t' <> Dead.
Proof.
  assert (Hrun : rtc (@alone env_batch2) (periodic_cache_flush 1, shared sample_sys)
                   (mkThread (FlushPop 0) [],
                    mkShared (mgr (shared sample_sys))
                             (enter CallProcessQueue (world (shared sample_sys)))
                             (taken (shared sample_sys)) (appended (shared sample_sys)))).
  { eapply rtc_l; [reflexivity|]. eapply rtc_l; [reflexivity|]. apply rtc_once. reflexivity. }
  eexists _, _. split; [exact Hrun|]. split; [reflexivity|].
  exact (@thread_alone_never_dies env_batch2 (periodic_cache_flush 1) _ (shared sample_sys) _
           (eq_refl : pc (periodic_cache_flush 1) = Idle) Hrun).
Defined.

Lemma second_pop_dies_witness :
  exists s', rtc (@step env_batch2) sys_both_at_pop s' /\ pc (timer_thread s') = Dead.
Proof.
  destruct (proj1 (@second_pop_dies env_batch2 sys_both_at_pop 0 0 record_a
                     eq_refl eq_refl eq_refl)) as (s' & Hrun & Hd & _).
  exists s'. auto.
Defined.

Lemma failed_model_query_never_posts_witness :
  let c := (CacheManager__init__ (lit "http://vllm:8000") (ModelsResponded 503 None)).1 in
  let self := mkWatcher (lit "/workspace") c ∅ (fun _ => false) in
  no_model c
  /\ exists self' w',
       @run_actions env_batch2 sample_actions
         (@_initial_scan env_batch2 sample_fs [path_a] self empty_world).1
         (@_initial_scan env_batch2 sample_fs [path_a] self empty_world).2
       = Some (self', w')
       /\ posts w' = [].
Proof.
  intros c self.
  destruct (@run_actions env_batch2 sample_actions
              (@_initial_scan env_batch2 sample_fs [path_a] self empty_world).1
              (@_initial_scan env_batch2 sample_fs [path_a] self empty_world).2)
    as [[self' w']|] eqn:Hrun; [|vm_compute in Hrun; discriminate].
  destruct (@failed_model_query_never_posts env_batch2 (lit "http://vllm:8000")
              (ModelsResponded 503 None) (lit "/workspace") (fun _ => false) sample_fs
              [path_a] sample_actions self' empty_world w' ltac:(intros; discriminate))
    as ((Hnm & _) & Hposts).
  split; [exact Hnm|]. exists self', w'. split; [reflexivity|]. exact (Hposts Hrun).
Defined.


